(** * The GIF decoder of ImageWorsener (src/imagew-gif.c)

    A shallow embedding of the single-image GIF reader: the byte reader,
    the container parser, the LZW decompressor and the pixel assembler,
    followed by the properties of the specification that concern them.

    Conventions of the embedding.
    - An [unsigned char], [unsigned int] or [size_t] is a [Z] with its
      wrap-around written at every operation that can overflow
      ([u8], [u32], [usz]); [size_t] is taken 64 bits wide.
    - An [int] is a [Z]. Signed overflow is undefined in C; the places
      where the source could overflow an [int] are named in the comments
      of the definitions concerned.
    - A C function [int f(struct iwgifreadcontext *rctx, ...)] becomes a
      function from the context to an [outcome] holding the returned
      [int] and the context as the call leaves it.
    - Behaviour that C leaves undefined (an access outside an array, a
      division by zero, a null pointer) is the outcome [Undefined]; a
      loop that never exits is the outcome [Diverges]. *)

From Stdlib Require Import ZArith Lia.
From stdpp Require Import base list finite.

Local Open Scope Z_scope.

(** ** Machine integers *)

Definition u8 (x : Z) : Z := x mod 256.
Definition u32 (x : Z) : Z := x mod 2 ^ 32.
Definition usz (x : Z) : Z := x mod 2 ^ 64.

(** Conversion of an [unsigned int] to [int], as two's complement
    implementations do it. *)
Definition int_of_unsigned (x : Z) : Z :=
  if x <? 2 ^ 31 then x else x - 2 ^ 32.

(** C truth value of an [int]. *)
Definition truthy (x : Z) : bool := negb (x =? 0).

(** ** Outcomes of a call *)

Inductive outcome (A : Type) : Type :=
| Normal (x : A)
| Undefined
| Diverges.
Arguments Normal {A} x.
Arguments Undefined {A}.
Arguments Diverges {A}.

#[global] Instance outcome_ret : MRet outcome := fun A x => Normal x.
#[global] Instance outcome_bind : MBind outcome := fun A B f m =>
  match m with
  | Normal x => f x
  | Undefined => Undefined
  | Diverges => Diverges
  end.

(** Reading a C array of known size: [None] outside its bounds. *)
Definition array_get {A : Type} (l : list A) (i : Z) : option A :=
  if (0 <=? i) && (i <? Z.of_nat (length l)) then l !! Z.to_nat i else None.

Definition array_set {A : Type} (l : list A) (i : Z) (x : A) : option (list A) :=
  if (0 <=? i) && (i <? Z.of_nat (length l)) then Some (<[Z.to_nat i := x]> l) else None.

Definition defined {A : Type} (o : option A) : outcome A :=
  match o with Some x => Normal x | None => Undefined end.

(** ** Messages of the decoder ([enum iwgif_string]) *)

Inductive iwgif_string : Type :=
| iws_gif_read_error
| iws_gif_unsupported
| iws_gif_no_image
| iws_gif_decode_error
| iws_gif_inval_lzw_min
| iws_gif_not_a_gif.

(** ** Data of the library the reader writes to (imagew.h)

    The header is not part of the sources at hand; the declarations below
    list the fields and constants the reader uses. *)

Inductive iw_imgtype : Type :=
| IW_IMGTYPE_NONE   (* the zero the caller's [memset] leaves *)
| IW_IMGTYPE_RGB
| IW_IMGTYPE_RGBA.

Inductive iw_density_code : Type :=
| IW_DENSITY_UNKNOWN
| IW_DENSITY_UNITS_UNKNOWN.

Inductive iw_cstype : Type := IW_CSTYPE_NONE | IW_CSTYPE_SRGB.
Inductive iw_srgb_intent : Type := IW_sRGB_INTENT_NONE | IW_sRGB_INTENT_PERCEPTUAL.

Record iw_csdescr : Type := Build_iw_csdescr {
  cstype : iw_cstype;
  sRGB_intent : iw_srgb_intent
}.

(** [struct iw_rgba8color]: the fields [r], [g], [b], [a] *)
Record iw_rgba8color : Type := Build_iw_rgba8color {
  cr : Z;  (* r *)
  cg : Z;  (* g *)
  cb : Z;  (* b *)
  ca : Z  (* a *)
}.

(** [struct iw_palette] *)
Record iw_palette : Type := Build_iw_palette {
  num_entries : Z;
  entry : list iw_rgba8color  (* [entry[256]] *)
}.

(** [struct iw_image], the fields the reader touches *)
Record iw_image : Type := Build_iw_image {
  imgtype : iw_imgtype;
  bit_depth : Z;
  width : Z;
  height : Z;
  pixels : option (list Z);  (* [None] is the null pointer *)
  bpr : Z;  (* bytes per row *)
  density_code : iw_density_code;
  density_x : Z * Z;  (* a quotient, numerator first *)
  density_y : Z * Z
}.

Definition set_imgtype (v : iw_imgtype) (im : iw_image) : iw_image :=
  Build_iw_image v (bit_depth im) (width im) (height im) (pixels im) (bpr im)
    (density_code im) (density_x im) (density_y im).
Definition set_bit_depth (v : Z) (im : iw_image) : iw_image :=
  Build_iw_image (imgtype im) v (width im) (height im) (pixels im) (bpr im)
    (density_code im) (density_x im) (density_y im).
Definition set_width (v : Z) (im : iw_image) : iw_image :=
  Build_iw_image (imgtype im) (bit_depth im) v (height im) (pixels im) (bpr
    im) (density_code im) (density_x im) (density_y im).
Definition set_height (v : Z) (im : iw_image) : iw_image :=
  Build_iw_image (imgtype im) (bit_depth im) (width im) v (pixels im) (bpr im)
    (density_code im) (density_x im) (density_y im).
Definition set_pixels (v : option (list Z)) (im : iw_image) : iw_image :=
  Build_iw_image (imgtype im) (bit_depth im) (width im) (height im) v (bpr im)
    (density_code im) (density_x im) (density_y im).
Definition set_bpr (v : Z) (im : iw_image) : iw_image :=
  Build_iw_image (imgtype im) (bit_depth im) (width im) (height im) (pixels
    im) v (density_code im) (density_x im) (density_y im).
Definition set_density_code (v : iw_density_code) (im : iw_image) : iw_image :=
  Build_iw_image (imgtype im) (bit_depth im) (width im) (height im) (pixels
    im) (bpr im) v (density_x im) (density_y im).
Definition set_density_x (v : Z * Z) (im : iw_image) : iw_image :=
  Build_iw_image (imgtype im) (bit_depth im) (width im) (height im) (pixels
    im) (bpr im) (density_code im) v (density_y im).
Definition set_density_y (v : Z * Z) (im : iw_image) : iw_image :=
  Build_iw_image (imgtype im) (bit_depth im) (width im) (height im) (pixels
    im) (bpr im) (density_code im) (density_x im) v.

(** [struct iw_context], seen through the calls the reader makes on it *)
Record iw_context : Type := Build_iw_context {
  errors : list iwgif_string;  (* messages given to [iw_seterror], oldest first *)
  bkgd_label : option (Z * Z * Z);  (* [iw_set_input_bkgd_label]: each channel is over 255 *)
  input_image : option iw_image;  (* [iw_set_input_image] *)
  input_colorspace : option iw_csdescr  (* [iw_set_input_colorspace] *)
}.

Definition set_errors (v : list iwgif_string) (c : iw_context) : iw_context :=
  Build_iw_context v (bkgd_label c) (input_image c) (input_colorspace c).
Definition set_bkgd_label (v : option (Z * Z * Z)) (c : iw_context) : iw_context :=
  Build_iw_context (errors c) v (input_image c) (input_colorspace c).
Definition set_input_image (v : option iw_image) (c : iw_context) : iw_context :=
  Build_iw_context (errors c) (bkgd_label c) v (input_colorspace c).
Definition set_input_colorspace (v : option iw_csdescr) (c : iw_context) : iw_context :=
  Build_iw_context (errors c) (bkgd_label c) (input_image c) v.

(** [struct iwgifreadcontext] *)
Record iwgifreadcontext : Type := Build_iwgifreadcontext {
  iodescr : list Z;  (* bytes the source has not delivered yet *)
  ctx : iw_context;
  img : iw_image;
  csdescr : iw_csdescr;
  screen_width : Z;
  screen_height : Z;
  image_width : Z;
  image_height : Z;
  image_left : Z;
  image_top : Z;
  screen_initialized : Z;
  interlaced : Z;
  bytes_per_pixel : Z;
  has_transparency : Z;
  has_bg_color : Z;
  bg_color_index : Z;
  trans_color_index : Z;
  pixels_set : Z;  (* number of pixels decoded so far *)
  total_npixels : Z;  (* total number of pixels in the image (not the screen) *)
  row_pointers : option (list Z);  (* offsets into [pixels (img _)]; [None] is the null pointer *)
  colortable : iw_palette;
  rbuf : list Z  (* [rbuf[768]] *)
}.

Definition set_iodescr (v : list Z) (rctx : iwgifreadcontext) : iwgifreadcontext :=
  Build_iwgifreadcontext v (ctx rctx) (img rctx) (csdescr rctx) (screen_width
    rctx) (screen_height rctx) (image_width rctx) (image_height rctx)
    (image_left rctx) (image_top rctx) (screen_initialized rctx) (interlaced
    rctx) (bytes_per_pixel rctx) (has_transparency rctx) (has_bg_color rctx)
    (bg_color_index rctx) (trans_color_index rctx) (pixels_set rctx)
    (total_npixels rctx) (row_pointers rctx) (colortable rctx) (rbuf rctx).
Definition set_ctx (v : iw_context) (rctx : iwgifreadcontext) : iwgifreadcontext :=
  Build_iwgifreadcontext (iodescr rctx) v (img rctx) (csdescr rctx)
    (screen_width rctx) (screen_height rctx) (image_width rctx) (image_height
    rctx) (image_left rctx) (image_top rctx) (screen_initialized rctx)
    (interlaced rctx) (bytes_per_pixel rctx) (has_transparency rctx)
    (has_bg_color rctx) (bg_color_index rctx) (trans_color_index rctx)
    (pixels_set rctx) (total_npixels rctx) (row_pointers rctx) (colortable
    rctx) (rbuf rctx).
Definition set_img (v : iw_image) (rctx : iwgifreadcontext) : iwgifreadcontext :=
  Build_iwgifreadcontext (iodescr rctx) (ctx rctx) v (csdescr rctx)
    (screen_width rctx) (screen_height rctx) (image_width rctx) (image_height
    rctx) (image_left rctx) (image_top rctx) (screen_initialized rctx)
    (interlaced rctx) (bytes_per_pixel rctx) (has_transparency rctx)
    (has_bg_color rctx) (bg_color_index rctx) (trans_color_index rctx)
    (pixels_set rctx) (total_npixels rctx) (row_pointers rctx) (colortable
    rctx) (rbuf rctx).
Definition set_csdescr (v : iw_csdescr) (rctx : iwgifreadcontext) : iwgifreadcontext :=
  Build_iwgifreadcontext (iodescr rctx) (ctx rctx) (img rctx) v (screen_width
    rctx) (screen_height rctx) (image_width rctx) (image_height rctx)
    (image_left rctx) (image_top rctx) (screen_initialized rctx) (interlaced
    rctx) (bytes_per_pixel rctx) (has_transparency rctx) (has_bg_color rctx)
    (bg_color_index rctx) (trans_color_index rctx) (pixels_set rctx)
    (total_npixels rctx) (row_pointers rctx) (colortable rctx) (rbuf rctx).
Definition set_screen_width (v : Z) (rctx : iwgifreadcontext) : iwgifreadcontext :=
  Build_iwgifreadcontext (iodescr rctx) (ctx rctx) (img rctx) (csdescr rctx) v
    (screen_height rctx) (image_width rctx) (image_height rctx) (image_left
    rctx) (image_top rctx) (screen_initialized rctx) (interlaced rctx)
    (bytes_per_pixel rctx) (has_transparency rctx) (has_bg_color rctx)
    (bg_color_index rctx) (trans_color_index rctx) (pixels_set rctx)
    (total_npixels rctx) (row_pointers rctx) (colortable rctx) (rbuf rctx).
Definition set_screen_height (v : Z) (rctx : iwgifreadcontext) : iwgifreadcontext :=
  Build_iwgifreadcontext (iodescr rctx) (ctx rctx) (img rctx) (csdescr rctx)
    (screen_width rctx) v (image_width rctx) (image_height rctx) (image_left
    rctx) (image_top rctx) (screen_initialized rctx) (interlaced rctx)
    (bytes_per_pixel rctx) (has_transparency rctx) (has_bg_color rctx)
    (bg_color_index rctx) (trans_color_index rctx) (pixels_set rctx)
    (total_npixels rctx) (row_pointers rctx) (colortable rctx) (rbuf rctx).
Definition set_image_width (v : Z) (rctx : iwgifreadcontext) : iwgifreadcontext :=
  Build_iwgifreadcontext (iodescr rctx) (ctx rctx) (img rctx) (csdescr rctx)
    (screen_width rctx) (screen_height rctx) v (image_height rctx) (image_left
    rctx) (image_top rctx) (screen_initialized rctx) (interlaced rctx)
    (bytes_per_pixel rctx) (has_transparency rctx) (has_bg_color rctx)
    (bg_color_index rctx) (trans_color_index rctx) (pixels_set rctx)
    (total_npixels rctx) (row_pointers rctx) (colortable rctx) (rbuf rctx).
Definition set_image_height (v : Z) (rctx : iwgifreadcontext) : iwgifreadcontext :=
  Build_iwgifreadcontext (iodescr rctx) (ctx rctx) (img rctx) (csdescr rctx)
    (screen_width rctx) (screen_height rctx) (image_width rctx) v (image_left
    rctx) (image_top rctx) (screen_initialized rctx) (interlaced rctx)
    (bytes_per_pixel rctx) (has_transparency rctx) (has_bg_color rctx)
    (bg_color_index rctx) (trans_color_index rctx) (pixels_set rctx)
    (total_npixels rctx) (row_pointers rctx) (colortable rctx) (rbuf rctx).
Definition set_image_left (v : Z) (rctx : iwgifreadcontext) : iwgifreadcontext :=
  Build_iwgifreadcontext (iodescr rctx) (ctx rctx) (img rctx) (csdescr rctx)
    (screen_width rctx) (screen_height rctx) (image_width rctx) (image_height
    rctx) v (image_top rctx) (screen_initialized rctx) (interlaced rctx)
    (bytes_per_pixel rctx) (has_transparency rctx) (has_bg_color rctx)
    (bg_color_index rctx) (trans_color_index rctx) (pixels_set rctx)
    (total_npixels rctx) (row_pointers rctx) (colortable rctx) (rbuf rctx).
Definition set_image_top (v : Z) (rctx : iwgifreadcontext) : iwgifreadcontext :=
  Build_iwgifreadcontext (iodescr rctx) (ctx rctx) (img rctx) (csdescr rctx)
    (screen_width rctx) (screen_height rctx) (image_width rctx) (image_height
    rctx) (image_left rctx) v (screen_initialized rctx) (interlaced rctx)
    (bytes_per_pixel rctx) (has_transparency rctx) (has_bg_color rctx)
    (bg_color_index rctx) (trans_color_index rctx) (pixels_set rctx)
    (total_npixels rctx) (row_pointers rctx) (colortable rctx) (rbuf rctx).
Definition set_screen_initialized (v : Z) (rctx : iwgifreadcontext) : iwgifreadcontext :=
  Build_iwgifreadcontext (iodescr rctx) (ctx rctx) (img rctx) (csdescr rctx)
    (screen_width rctx) (screen_height rctx) (image_width rctx) (image_height
    rctx) (image_left rctx) (image_top rctx) v (interlaced rctx)
    (bytes_per_pixel rctx) (has_transparency rctx) (has_bg_color rctx)
    (bg_color_index rctx) (trans_color_index rctx) (pixels_set rctx)
    (total_npixels rctx) (row_pointers rctx) (colortable rctx) (rbuf rctx).
Definition set_interlaced (v : Z) (rctx : iwgifreadcontext) : iwgifreadcontext :=
  Build_iwgifreadcontext (iodescr rctx) (ctx rctx) (img rctx) (csdescr rctx)
    (screen_width rctx) (screen_height rctx) (image_width rctx) (image_height
    rctx) (image_left rctx) (image_top rctx) (screen_initialized rctx) v
    (bytes_per_pixel rctx) (has_transparency rctx) (has_bg_color rctx)
    (bg_color_index rctx) (trans_color_index rctx) (pixels_set rctx)
    (total_npixels rctx) (row_pointers rctx) (colortable rctx) (rbuf rctx).
Definition set_bytes_per_pixel (v : Z) (rctx : iwgifreadcontext) : iwgifreadcontext :=
  Build_iwgifreadcontext (iodescr rctx) (ctx rctx) (img rctx) (csdescr rctx)
    (screen_width rctx) (screen_height rctx) (image_width rctx) (image_height
    rctx) (image_left rctx) (image_top rctx) (screen_initialized rctx)
    (interlaced rctx) v (has_transparency rctx) (has_bg_color rctx)
    (bg_color_index rctx) (trans_color_index rctx) (pixels_set rctx)
    (total_npixels rctx) (row_pointers rctx) (colortable rctx) (rbuf rctx).
Definition set_has_transparency (v : Z) (rctx : iwgifreadcontext) : iwgifreadcontext :=
  Build_iwgifreadcontext (iodescr rctx) (ctx rctx) (img rctx) (csdescr rctx)
    (screen_width rctx) (screen_height rctx) (image_width rctx) (image_height
    rctx) (image_left rctx) (image_top rctx) (screen_initialized rctx)
    (interlaced rctx) (bytes_per_pixel rctx) v (has_bg_color rctx)
    (bg_color_index rctx) (trans_color_index rctx) (pixels_set rctx)
    (total_npixels rctx) (row_pointers rctx) (colortable rctx) (rbuf rctx).
Definition set_has_bg_color (v : Z) (rctx : iwgifreadcontext) : iwgifreadcontext :=
  Build_iwgifreadcontext (iodescr rctx) (ctx rctx) (img rctx) (csdescr rctx)
    (screen_width rctx) (screen_height rctx) (image_width rctx) (image_height
    rctx) (image_left rctx) (image_top rctx) (screen_initialized rctx)
    (interlaced rctx) (bytes_per_pixel rctx) (has_transparency rctx) v
    (bg_color_index rctx) (trans_color_index rctx) (pixels_set rctx)
    (total_npixels rctx) (row_pointers rctx) (colortable rctx) (rbuf rctx).
Definition set_bg_color_index (v : Z) (rctx : iwgifreadcontext) : iwgifreadcontext :=
  Build_iwgifreadcontext (iodescr rctx) (ctx rctx) (img rctx) (csdescr rctx)
    (screen_width rctx) (screen_height rctx) (image_width rctx) (image_height
    rctx) (image_left rctx) (image_top rctx) (screen_initialized rctx)
    (interlaced rctx) (bytes_per_pixel rctx) (has_transparency rctx)
    (has_bg_color rctx) v (trans_color_index rctx) (pixels_set rctx)
    (total_npixels rctx) (row_pointers rctx) (colortable rctx) (rbuf rctx).
Definition set_trans_color_index (v : Z) (rctx : iwgifreadcontext) : iwgifreadcontext :=
  Build_iwgifreadcontext (iodescr rctx) (ctx rctx) (img rctx) (csdescr rctx)
    (screen_width rctx) (screen_height rctx) (image_width rctx) (image_height
    rctx) (image_left rctx) (image_top rctx) (screen_initialized rctx)
    (interlaced rctx) (bytes_per_pixel rctx) (has_transparency rctx)
    (has_bg_color rctx) (bg_color_index rctx) v (pixels_set rctx)
    (total_npixels rctx) (row_pointers rctx) (colortable rctx) (rbuf rctx).
Definition set_pixels_set (v : Z) (rctx : iwgifreadcontext) : iwgifreadcontext :=
  Build_iwgifreadcontext (iodescr rctx) (ctx rctx) (img rctx) (csdescr rctx)
    (screen_width rctx) (screen_height rctx) (image_width rctx) (image_height
    rctx) (image_left rctx) (image_top rctx) (screen_initialized rctx)
    (interlaced rctx) (bytes_per_pixel rctx) (has_transparency rctx)
    (has_bg_color rctx) (bg_color_index rctx) (trans_color_index rctx) v
    (total_npixels rctx) (row_pointers rctx) (colortable rctx) (rbuf rctx).
Definition set_total_npixels (v : Z) (rctx : iwgifreadcontext) : iwgifreadcontext :=
  Build_iwgifreadcontext (iodescr rctx) (ctx rctx) (img rctx) (csdescr rctx)
    (screen_width rctx) (screen_height rctx) (image_width rctx) (image_height
    rctx) (image_left rctx) (image_top rctx) (screen_initialized rctx)
    (interlaced rctx) (bytes_per_pixel rctx) (has_transparency rctx)
    (has_bg_color rctx) (bg_color_index rctx) (trans_color_index rctx)
    (pixels_set rctx) v (row_pointers rctx) (colortable rctx) (rbuf rctx).
Definition set_row_pointers (v : option (list Z)) (rctx : iwgifreadcontext) : iwgifreadcontext :=
  Build_iwgifreadcontext (iodescr rctx) (ctx rctx) (img rctx) (csdescr rctx)
    (screen_width rctx) (screen_height rctx) (image_width rctx) (image_height
    rctx) (image_left rctx) (image_top rctx) (screen_initialized rctx)
    (interlaced rctx) (bytes_per_pixel rctx) (has_transparency rctx)
    (has_bg_color rctx) (bg_color_index rctx) (trans_color_index rctx)
    (pixels_set rctx) (total_npixels rctx) v (colortable rctx) (rbuf rctx).
Definition set_colortable (v : iw_palette) (rctx : iwgifreadcontext) : iwgifreadcontext :=
  Build_iwgifreadcontext (iodescr rctx) (ctx rctx) (img rctx) (csdescr rctx)
    (screen_width rctx) (screen_height rctx) (image_width rctx) (image_height
    rctx) (image_left rctx) (image_top rctx) (screen_initialized rctx)
    (interlaced rctx) (bytes_per_pixel rctx) (has_transparency rctx)
    (has_bg_color rctx) (bg_color_index rctx) (trans_color_index rctx)
    (pixels_set rctx) (total_npixels rctx) (row_pointers rctx) v (rbuf rctx).
Definition set_rbuf (v : list Z) (rctx : iwgifreadcontext) : iwgifreadcontext :=
  Build_iwgifreadcontext (iodescr rctx) (ctx rctx) (img rctx) (csdescr rctx)
    (screen_width rctx) (screen_height rctx) (image_width rctx) (image_height
    rctx) (image_left rctx) (image_top rctx) (screen_initialized rctx)
    (interlaced rctx) (bytes_per_pixel rctx) (has_transparency rctx)
    (has_bg_color rctx) (bg_color_index rctx) (trans_color_index rctx)
    (pixels_set rctx) (total_npixels rctx) (row_pointers rctx) (colortable
    rctx) v.

(** [iw_seterror(rctx->ctx, iwgif_get_string(rctx->ctx, n))]. *)
Definition iw_seterror (n : iwgif_string) (rctx : iwgifreadcontext) : iwgifreadcontext :=
  set_ctx (set_errors (errors (ctx rctx) ++ [n]) (ctx rctx)) rctx.

(** ** Byte reader *)

(** [iwgif_read(rctx, rctx->rbuf, buflen)]: every call of the source reads
    to the start of [rbuf], and none asks for more than the 768 bytes
    [rbuf] has. The byte source is the list of the bytes it still holds; a
    request for more than it holds is the short read, which hands over
    what is left. *)
Definition iwgif_read (rctx : iwgifreadcontext) (buflen : Z) : Z * iwgifreadcontext :=
  let n := Z.to_nat buflen in
  let got := take n (iodescr rctx) in
  let rctx' := set_iodescr (drop n (iodescr rctx))
                 (set_rbuf (got ++ drop (length got) (rbuf rctx)) rctx) in
  if Z.of_nat (length got) =? buflen then (1, rctx') else (0, rctx').

(** [rctx->rbuf[i]]. *)
Definition rbuf_at (rctx : iwgifreadcontext) (i : Z) : outcome Z :=
  defined (array_get (rbuf rctx) i).

(** [iw_read_uint16le(&rctx->rbuf[i])]. *)
Definition iw_read_uint16le (rctx : iwgifreadcontext) (i : Z) : outcome Z :=
  b0 ← rbuf_at rctx i;
  b1 ← rbuf_at rctx (i + 1);
  mret (Z.lor b0 (Z.shiftl b1 8)).

Definition iwgif_read_file_header (rctx : iwgifreadcontext) : outcome (Z * iwgifreadcontext) :=
  let '(ok, rctx) := iwgif_read rctx 6 in
  if negb (truthy ok) then mret (0, rctx) else
  c0 ← rbuf_at rctx 0;
  c1 ← rbuf_at rctx 1;
  c2 ← rbuf_at rctx 2;
  if negb (c0 =? 71) || negb (c1 =? 73) || negb (c2 =? 70)   (* 'G' 'I' 'F' *)
  then mret (0, iw_seterror iws_gif_not_a_gif rctx)
  else mret (1, rctx).

(** ** Container parser *)

Section Reader.

(** Functions of the library that live outside imagew-gif.c:
    [iw_check_image_dimensons] is the size policy of the library, and the
    two allocators may refuse a request. *)
Variable iw_check_image_dimensons : Z -> Z -> bool.
Variable iw_malloc_large : Z -> Z -> bool.   (* does [iw_malloc_large(ctx,n1,n2)] yield memory *)
Variable iw_malloc : Z -> bool.              (* does [iw_malloc(ctx,n)] yield memory *)

Definition iwgif_read_screen_descriptor (rctx : iwgifreadcontext)
  : outcome (Z * iwgifreadcontext) :=
  (* The screen descriptor is always 7 bytes in size. *)
  let '(ok, rctx) := iwgif_read rctx 7 in
  if negb (truthy ok) then mret (0, rctx) else
  sw ← iw_read_uint16le rctx 0;
  sh ← iw_read_uint16le rctx 2;
  let rctx := set_screen_height sh (set_screen_width sw rctx) in
  if negb (iw_check_image_dimensons (screen_width rctx) (screen_height rctx))
  then mret (0, rctx) else
  let rctx := set_img (set_height (screen_height rctx)
                        (set_width (screen_width rctx) (img rctx))) rctx in
  b4 ← rbuf_at rctx 4;
  let has_global_ct := Z.land (Z.shiftr b4 7) 1 in
  let rctx :=
    if truthy has_global_ct then
      let global_ct_size := Z.land b4 7 in
      set_colortable (Build_iw_palette (Z.shiftl 1 (1 + global_ct_size))
                                       (entry (colortable rctx))) rctx
    else rctx in
  rctx ←
    (if truthy has_global_ct then
       b5 ← rbuf_at rctx 5;
       let rctx := set_bg_color_index b5 rctx in
       if bg_color_index rctx <? num_entries (colortable rctx)
       then mret (set_has_bg_color 1 rctx) else mret rctx
     else mret rctx);
  aspect_ratio_code ← rbuf_at rctx 6;
  let rctx :=
    if negb (aspect_ratio_code =? 0) then
      (* [aspect ratio = (pixel width)/(pixel height)] *)
      set_img (set_density_y (1000, 1)
                (set_density_x (64000, aspect_ratio_code + 15)
                  (set_density_code IW_DENSITY_UNITS_UNKNOWN (img rctx)))) rctx
    else rctx in
  mret (1, rctx).

(** The loop of [iwgif_read_color_table]: entries [i], [i+1], ... for [n]
    rounds. Alpha is not written. *)
Fixpoint iwgif_read_color_table_loop (n : nat) (i : Z) (rctx : iwgifreadcontext)
  : outcome iwgifreadcontext :=
  match n with
  | O => mret rctx
  | S n' =>
      r ← rbuf_at rctx (3 * i + 0);
      g ← rbuf_at rctx (3 * i + 1);
      b ← rbuf_at rctx (3 * i + 2);
      e ← defined (array_get (entry (colortable rctx)) i);
      ents ← defined (array_set (entry (colortable rctx)) i
                        (Build_iw_rgba8color r g b (ca e)));
      iwgif_read_color_table_loop n' (i + 1)
        (set_colortable (Build_iw_palette (num_entries (colortable rctx)) ents) rctx)
  end.

(** [iwgif_read_color_table(rctx, &rctx->colortable)]; [num_entries] was
    set by the caller. *)
Definition iwgif_read_color_table (rctx : iwgifreadcontext)
  : outcome (Z * iwgifreadcontext) :=
  if num_entries (colortable rctx) <? 1 then mret (1, rctx) else
  let '(ok, rctx) := iwgif_read rctx (3 * num_entries (colortable rctx)) in
  if negb (truthy ok) then mret (0, rctx) else
  rctx ← iwgif_read_color_table_loop
            (Z.to_nat (num_entries (colortable rctx))) 0 rctx;
  mret (1, rctx).

(** [iwgif_skip_subblocks]; every round of the [while(1)] takes at least
    one byte from the source or returns, so [fuel] above the number of
    bytes left is never used up. *)
Fixpoint iwgif_skip_subblocks_loop (fuel : nat) (rctx : iwgifreadcontext)
  : outcome (Z * iwgifreadcontext) :=
  match fuel with
  | O => Diverges
  | S fuel' =>
      (* Read the subblock size *)
      let '(ok, rctx) := iwgif_read rctx 1 in
      if negb (truthy ok) then mret (0, rctx) else
      subblock_size ← rbuf_at rctx 0;
      (* A size of 0 marks the end of the subblocks. *)
      if subblock_size =? 0 then mret (1, rctx) else
      (* Read the subblock's data *)
      let '(ok, rctx) := iwgif_read rctx subblock_size in
      if negb (truthy ok) then mret (0, rctx) else
      iwgif_skip_subblocks_loop fuel' rctx
  end.

Definition iwgif_skip_subblocks (rctx : iwgifreadcontext)
  : outcome (Z * iwgifreadcontext) :=
  iwgif_skip_subblocks_loop (S (length (iodescr rctx))) rctx.

(** [iwgif_read_graphics_control_ext]. The source declares [int retval;]
    without a value and assigns it only on the path that reaches
    [retval=1]; the three [goto done] return what the variable held on
    entry. That content is the argument [retval], named after the
    variable. *)
Definition iwgif_read_graphics_control_ext (retval : Z) (rctx : iwgifreadcontext)
  : outcome (Z * iwgifreadcontext) :=
  (* Read 6 bytes:
      The first is the subblock size, which must be 4.
      The last is the block terminator.
      The middle 4 contain the actual data. *)
  let '(ok, rctx) := iwgif_read rctx 6 in
  if negb (truthy ok) then mret (retval, rctx) else
  b0 ← rbuf_at rctx 0;
  if negb (b0 =? 4) then mret (retval, rctx) else
  b5 ← rbuf_at rctx 5;
  if negb (b5 =? 0) then mret (retval, rctx) else
  b1 ← rbuf_at rctx 1;
  let rctx := set_has_transparency (Z.land b1 1) rctx in
  rctx ←
    (if truthy (has_transparency rctx) then
       b4 ← rbuf_at rctx 4;
       let rctx := set_trans_color_index b4 rctx in
       e ← defined (array_get (entry (colortable rctx)) (trans_color_index rctx));
       ents ← defined (array_set (entry (colortable rctx)) (trans_color_index rctx)
                         (Build_iw_rgba8color (cr e) (cg e) (cb e) 0));
       mret (set_colortable (Build_iw_palette (num_entries (colortable rctx)) ents) rctx)
     else mret rctx);
  mret (1, rctx).

(** [iwgif_read_extension]; [gce_retval] is passed on to
    [iwgif_read_graphics_control_ext]. *)
Definition iwgif_read_extension (gce_retval : Z) (rctx : iwgifreadcontext)
  : outcome (Z * iwgifreadcontext) :=
  let '(ok, rctx) := iwgif_read rctx 1 in
  if negb (truthy ok) then mret (0, rctx) else
  ext_type ← rbuf_at rctx 0;
  if ext_type =? 249 (* 0xf9 *) then
    '(ok, rctx) ← iwgif_read_graphics_control_ext gce_retval rctx;
    if negb (truthy ok) then mret (0, rctx) else mret (1, rctx)
  else
    '(ok, rctx) ← iwgif_skip_subblocks rctx;
    if negb (truthy ok) then mret (0, rctx) else mret (1, rctx).

(** Writing one byte of the canvas, [ptr[k] = v], [v] an [unsigned int]. *)
Definition poke (rctx : iwgifreadcontext) (addr : Z) (v : Z) : outcome iwgifreadcontext :=
  px ← defined (pixels (img rctx));
  px ← defined (array_set px addr (u8 v));
  mret (set_img (set_pixels (Some px) (img rctx)) rctx).

(** [iwgif_record_pixel]: sets the [(rctx->pixels_set + offset)]th pixel
    in the logical image to the color of palette entry [coloridx]. The
    [int] fields meet [size_t] values in the arithmetic and are converted
    to [size_t]. *)
Definition iwgif_record_pixel (rctx : iwgifreadcontext) (coloridx : Z) (offset : Z)
  : outcome iwgifreadcontext :=
  (* Figure out which pixel to set. *)
  let pixnum := usz (pixels_set rctx + usz offset) in
  if usz (image_width rctx) =? 0 then Undefined else
  let xi := pixnum mod usz (image_width rctx) in
  let yi := pixnum / usz (image_width rctx) in
  let xs := usz (usz (image_left rctx) + xi) in
  let ys := usz (usz (image_top rctx) + yi) in
  if (usz (screen_width rctx) <=? xs) || (usz (screen_height rctx) <=? ys)
  then mret rctx else
  (* Figure out what color to set it to. *)
  if coloridx <? u32 (num_entries (colortable rctx)) then
    e ← defined (array_get (entry (colortable rctx)) coloridx);
    (* Set the pixel. *)
    rows ← defined (row_pointers rctx);
    row ← defined (array_get rows yi);
    let ptr := row + usz (usz (bytes_per_pixel rctx) * xi) in
    rctx ← poke rctx (ptr + 0) (cr e);
    rctx ← poke rctx (ptr + 1) (cg e);
    rctx ← poke rctx (ptr + 2) (cb e);
    match imgtype (img rctx) with
    | IW_IMGTYPE_RGBA => poke rctx (ptr + 3) (ca e)
    | _ => mret rctx
    end
  else mret rctx   (* Illegal palette index *).

(** ** LZW decoder *)

(** [struct lzw_tableentry] *)
Record lzw_tableentry : Type := Build_lzw_tableentry {
  reference : Z;  (* pointer to previous table entry (if not a root code) *)
  length_ : Z;  (* the field [length] *)
  value : Z;
  firstchar : Z
}.

(** [struct lzwdeccontext] *)
Record lzwdeccontext : Type := Build_lzwdeccontext {
  root_codesize : Z;
  current_codesize : Z;
  eoi_flag : Z;
  oldcode : Z;
  pending_code : Z;
  bits_in_pending_code : Z;
  num_root_codes : Z;
  ncodes_since_clear : Z;
  clear_code : Z;
  eoi_code : Z;
  ct_used : Z;  (* number of items used in the code table *)
  ct : list lzw_tableentry  (* code table, [ct[4096]] *)
}.

Definition set_root_codesize (v : Z) (d : lzwdeccontext) : lzwdeccontext :=
  Build_lzwdeccontext v (current_codesize d) (eoi_flag d) (oldcode d)
    (pending_code d) (bits_in_pending_code d) (num_root_codes d)
    (ncodes_since_clear d) (clear_code d) (eoi_code d) (ct_used d) (ct d).
Definition set_current_codesize (v : Z) (d : lzwdeccontext) : lzwdeccontext :=
  Build_lzwdeccontext (root_codesize d) v (eoi_flag d) (oldcode d)
    (pending_code d) (bits_in_pending_code d) (num_root_codes d)
    (ncodes_since_clear d) (clear_code d) (eoi_code d) (ct_used d) (ct d).
Definition set_eoi_flag (v : Z) (d : lzwdeccontext) : lzwdeccontext :=
  Build_lzwdeccontext (root_codesize d) (current_codesize d) v (oldcode d)
    (pending_code d) (bits_in_pending_code d) (num_root_codes d)
    (ncodes_since_clear d) (clear_code d) (eoi_code d) (ct_used d) (ct d).
Definition set_oldcode (v : Z) (d : lzwdeccontext) : lzwdeccontext :=
  Build_lzwdeccontext (root_codesize d) (current_codesize d) (eoi_flag d) v
    (pending_code d) (bits_in_pending_code d) (num_root_codes d)
    (ncodes_since_clear d) (clear_code d) (eoi_code d) (ct_used d) (ct d).
Definition set_pending_code (v : Z) (d : lzwdeccontext) : lzwdeccontext :=
  Build_lzwdeccontext (root_codesize d) (current_codesize d) (eoi_flag d)
    (oldcode d) v (bits_in_pending_code d) (num_root_codes d)
    (ncodes_since_clear d) (clear_code d) (eoi_code d) (ct_used d) (ct d).
Definition set_bits_in_pending_code (v : Z) (d : lzwdeccontext) : lzwdeccontext :=
  Build_lzwdeccontext (root_codesize d) (current_codesize d) (eoi_flag d)
    (oldcode d) (pending_code d) v (num_root_codes d) (ncodes_since_clear d)
    (clear_code d) (eoi_code d) (ct_used d) (ct d).
Definition set_num_root_codes (v : Z) (d : lzwdeccontext) : lzwdeccontext :=
  Build_lzwdeccontext (root_codesize d) (current_codesize d) (eoi_flag d)
    (oldcode d) (pending_code d) (bits_in_pending_code d) v
    (ncodes_since_clear d) (clear_code d) (eoi_code d) (ct_used d) (ct d).
Definition set_ncodes_since_clear (v : Z) (d : lzwdeccontext) : lzwdeccontext :=
  Build_lzwdeccontext (root_codesize d) (current_codesize d) (eoi_flag d)
    (oldcode d) (pending_code d) (bits_in_pending_code d) (num_root_codes d) v
    (clear_code d) (eoi_code d) (ct_used d) (ct d).
Definition set_clear_code (v : Z) (d : lzwdeccontext) : lzwdeccontext :=
  Build_lzwdeccontext (root_codesize d) (current_codesize d) (eoi_flag d)
    (oldcode d) (pending_code d) (bits_in_pending_code d) (num_root_codes d)
    (ncodes_since_clear d) v (eoi_code d) (ct_used d) (ct d).
Definition set_eoi_code (v : Z) (d : lzwdeccontext) : lzwdeccontext :=
  Build_lzwdeccontext (root_codesize d) (current_codesize d) (eoi_flag d)
    (oldcode d) (pending_code d) (bits_in_pending_code d) (num_root_codes d)
    (ncodes_since_clear d) (clear_code d) v (ct_used d) (ct d).
Definition set_ct_used (v : Z) (d : lzwdeccontext) : lzwdeccontext :=
  Build_lzwdeccontext (root_codesize d) (current_codesize d) (eoi_flag d)
    (oldcode d) (pending_code d) (bits_in_pending_code d) (num_root_codes d)
    (ncodes_since_clear d) (clear_code d) (eoi_code d) v (ct d).
Definition set_ct (v : list lzw_tableentry) (d : lzwdeccontext) : lzwdeccontext :=
  Build_lzwdeccontext (root_codesize d) (current_codesize d) (eoi_flag d)
    (oldcode d) (pending_code d) (bits_in_pending_code d) (num_root_codes d)
    (ncodes_since_clear d) (clear_code d) (eoi_code d) (ct_used d) v.

(** [d->ct[i]]. *)
Definition ct_at (d : lzwdeccontext) (i : Z) : outcome lzw_tableentry :=
  defined (array_get (ct d) i).

Definition zero_entry : lzw_tableentry := Build_lzw_tableentry 0 0 0 0.

(** The code table after [memset(d,0,sizeof(struct lzwdeccontext))]. *)
Definition zero_table : list lzw_tableentry := replicate 4096 zero_entry.
Arguments zero_table : simpl never.

(** The loop of [lzw_init] setting the root codes [i], [i+1], ... for [n]
    rounds. *)
Fixpoint lzw_init_roots (n : nat) (i : Z) (tbl : list lzw_tableentry)
  : outcome (list lzw_tableentry) :=
  match n with
  | O => mret tbl
  | S n' =>
      tbl ← defined (array_set tbl i (Build_lzw_tableentry 0 0 (u8 i) (u8 i)));
      lzw_init_roots n' (i + 1) tbl
  end.

(** [lzw_init]: the [memset] to zero, then the root codes. A shift by the
    width of the type or more is undefined in C. *)
Definition lzw_init (root_codesize : Z) : outcome lzwdeccontext :=
  if (root_codesize <? 0) || (32 <=? root_codesize) then Undefined else
  let num_root_codes := u32 (Z.shiftl 1 root_codesize) in
  tbl ← lzw_init_roots (Z.to_nat num_root_codes) 0 zero_table;
  mret {| root_codesize := root_codesize;
          current_codesize := 0;
          eoi_flag := 0;
          oldcode := 0;
          pending_code := 0;
          bits_in_pending_code := 0;
          num_root_codes := num_root_codes;
          ncodes_since_clear := 0;
          clear_code := num_root_codes;
          eoi_code := u32 (num_root_codes + 1);
          ct_used := 0;
          ct := tbl |}.

Definition lzw_clear (d : lzwdeccontext) : lzwdeccontext :=
  set_oldcode 0
    (set_ncodes_since_clear 0
      (set_current_codesize (u32 (root_codesize d + 1))
        (set_ct_used (u32 (num_root_codes d + 2)) d))).

(** The [while(1)] of [lzw_emit_code]. One round records a pixel and moves
    to the parent; [fuel] counts the rounds left. The table is not written
    in the loop, so a run that gets through 4097 rounds has been at some
    entry twice and goes round for ever. *)
Fixpoint lzw_emit_code_loop (fuel : nat) (rctx : iwgifreadcontext)
    (d : lzwdeccontext) (code : Z) : outcome iwgifreadcontext :=
  match fuel with
  | O => Diverges
  | S fuel' =>
      e ← ct_at d code;
      rctx ← iwgif_record_pixel rctx (value e) (int_of_unsigned (length_ e));
      if length_ e <? 1 then mret rctx
      else
        (* The codes are structured as a "forest" (multiple trees).
           Go to the parent code, which should have a length 1 less than this one. *)
        lzw_emit_code_loop fuel' rctx d (reference e)
  end.

(** [lzw_emit_code]: decode an LZW code to one or more pixels, and record
    it in the image. *)
Definition lzw_emit_code (rctx : iwgifreadcontext) (d : lzwdeccontext)
    (first_code : Z) : outcome iwgifreadcontext :=
  rctx ← lzw_emit_code_loop 4097 rctx d first_code;
  (* Track the total number of pixels decoded in this image. *)
  e ← ct_at d first_code;
  mret (set_pixels_set (usz (pixels_set rctx + u32 (length_ e + 1))) rctx).

(** The labels of the [switch(newpos)] in [lzw_add_to_dict]:
    [case 7: case 15: case 31: case 63: case 127: case 255: case 511:
    case 1023: case 2047:]. *)
Definition last_code_of_size (newpos : Z) : bool :=
  (newpos =? 7) || (newpos =? 15) || (newpos =? 31) || (newpos =? 63)
  || (newpos =? 127) || (newpos =? 255) || (newpos =? 511)
  || (newpos =? 1023) || (newpos =? 2047).

(** [lzw_add_to_dict]: add a code to the dictionary. Returns the position
    where it was added; if the table is full, returns -1. The four fields
    of the new entry are written one after the other; [firstchar] and
    [length] are read from [d->ct[oldcode]] after [reference] and [value]
    of the new entry are stored, which leaves them as they were even when
    [oldcode] is the new position itself. *)
Definition lzw_add_to_dict (d : lzwdeccontext) (oldcode : Z) (val : Z)
  : outcome (Z * lzwdeccontext) :=
  if 4096 <=? ct_used d then mret (-1, d) else
  let newpos := int_of_unsigned (ct_used d) in
  let d := set_ct_used (u32 (ct_used d + 1)) d in
  old ← ct_at d oldcode;
  tbl ← defined (array_set (ct d) newpos
           (Build_lzw_tableentry (u32 oldcode) (u32 (length_ old + 1)) val (firstchar old)));
  let d := set_ct tbl d in
  (* If we've used the last code of this size, we need to increase the codesize. *)
  let d :=
    if last_code_of_size newpos
    then set_current_codesize (u32 (current_codesize d + 1)) d
    else d in
  mret (newpos, d).

(** [lzw_process_code]: process a single LZW code that was read from the
    input stream. [ncodes_since_clear] is an [int]; it would take 2^31
    codes without a clear code to overflow it. *)
Definition lzw_process_code (rctx : iwgifreadcontext) (d : lzwdeccontext) (code : Z)
  : outcome (Z * iwgifreadcontext * lzwdeccontext) :=
  if code =? eoi_code d then mret (1, rctx, set_eoi_flag 1 d) else
  if code =? clear_code d then mret (1, rctx, lzw_clear d) else
  let d := set_ncodes_since_clear (ncodes_since_clear d + 1) d in
  if ncodes_since_clear d =? 1 then
    (* Special case for the first code. *)
    rctx ← lzw_emit_code rctx d code;
    mret (1, rctx, set_oldcode code d)
  else
  (* Is code in code table? *)
  if code <? ct_used d then
    (* Yes, code is in table. *)
    rctx ← lzw_emit_code rctx d code;
    (* Let k = the first character of the translation of the code.
       Add <old>k to the dictionary. *)
    e ← ct_at d code;
    '(_, d) ← lzw_add_to_dict d (int_of_unsigned (oldcode d)) (firstchar e);
    mret (1, rctx, set_oldcode code d)
  else
    (* No, code is not in table. *)
    if ct_used d <=? oldcode d then
      mret (0, iw_seterror iws_gif_decode_error rctx, d)
    else
      (* Let k = the first char of the translation of oldcode.
         Add <oldcode>k to the dictionary. *)
      e ← ct_at d (oldcode d);
      '(newpos, d) ← lzw_add_to_dict d (int_of_unsigned (oldcode d)) (firstchar e);
      (* Write <oldcode>k to the output stream. *)
      rctx ← (if 0 <=? newpos then lzw_emit_code rctx d newpos else mret rctx);
      mret (1, rctx, set_oldcode code d).

(** What the body of a loop tells the loop around it. *)
Inductive flow : Type :=
| Continue
| Done (retval : Z).   (* [goto done] with this [retval] *)

(** The body of the inner loop of [lzw_process_bytes], for bit [b] of the
    byte [byte]. The shift [1<<d->bits_in_pending_code] is a shift of an
    [int]. *)
Definition lzw_process_bit (rctx : iwgifreadcontext) (d : lzwdeccontext)
    (byte : Z) (b : Z) : outcome (flow * iwgifreadcontext * lzwdeccontext) :=
  if truthy (eoi_flag d) then
    (* Stop if we've seen an EOI (end of image) code. *)
    mret (Done 1, rctx, d)
  else
  d ← (if truthy (Z.land byte (Z.shiftl 1 b)) then
         if 31 <=? bits_in_pending_code d then Undefined else
         mret (set_pending_code
                 (Z.lor (pending_code d) (Z.shiftl 1 (bits_in_pending_code d))) d)
       else mret d);
  let d := set_bits_in_pending_code (u32 (bits_in_pending_code d + 1)) d in
  (* When we get enough bits to form a complete LZW code, process it. *)
  if current_codesize d <=? bits_in_pending_code d then
    '(ok, rctx, d) ← lzw_process_code rctx d (pending_code d);
    if negb (truthy ok) then mret (Done 0, rctx, d) else
    mret (Continue, rctx, set_bits_in_pending_code 0 (set_pending_code 0 d))
  else mret (Continue, rctx, d).

(** The inner loop, [for(b=0;b<8;b++)], from bit [b] on for [n] rounds. *)
Fixpoint lzw_process_byte (n : nat) (b : Z) (rctx : iwgifreadcontext)
    (d : lzwdeccontext) (byte : Z)
  : outcome (flow * iwgifreadcontext * lzwdeccontext) :=
  match n with
  | O => mret (Continue, rctx, d)
  | S n' =>
      '(fl, rctx, d) ← lzw_process_bit rctx d byte b;
      match fl with
      | Continue => lzw_process_byte n' (b + 1) rctx d byte
      | Done r => mret (Done r, rctx, d)
      end
  end.

(** [lzw_process_bytes]: decode as much as possible of the provided
    LZW-encoded data. Any unfinished business is recorded, to be continued
    the next time this function is called. *)
Fixpoint lzw_process_bytes (rctx : iwgifreadcontext) (d : lzwdeccontext)
    (data : list Z) : outcome (Z * iwgifreadcontext * lzwdeccontext) :=
  match data with
  | [] => mret (1, rctx, d)
  | byte :: data' =>
      '(fl, rctx, d) ← lzw_process_byte 8 0 rctx d byte;
      match fl with
      | Continue => lzw_process_bytes rctx d data'
      | Done r => mret (r, rctx, d)
      end
  end.

(** ** Screen, row table and image block *)

(** [iwgif_init_screen]: allocate and set up the global "screen". *)
Definition iwgif_init_screen (rctx : iwgifreadcontext) : Z * iwgifreadcontext :=
  if truthy (screen_initialized rctx) then (1, rctx) else
  let rctx := set_screen_initialized 1 rctx in
  (* Allocate IW image *)
  let rctx :=
    if truthy (has_transparency rctx)
    then set_img (set_imgtype IW_IMGTYPE_RGBA (img rctx)) (set_bytes_per_pixel 4 rctx)
    else set_img (set_imgtype IW_IMGTYPE_RGB (img rctx)) (set_bytes_per_pixel 3 rctx) in
  let rctx := set_img (set_bit_depth 8 (img rctx)) rctx in
  let rctx := set_img (set_bpr (bytes_per_pixel rctx * width (img rctx)) (img rctx)) rctx in
  if negb (iw_malloc_large (bpr (img rctx)) (height (img rctx)))
  then (0, set_img (set_pixels None (img rctx)) rctx) else
  (1, set_img (set_pixels
                 (Some (replicate (Z.to_nat (bpr (img rctx) * height (img rctx))) 0))
                 (img rctx)) rctx).

(** One pass of the interlace loop,
    [for(row=startrow; row<image_height; row+=rowskip)]: the rows it
    visits, in order. [fuel] bounds the rounds; [image_height] rounds are
    enough. *)
Fixpoint interlace_pass (fuel : nat) (row rowskip image_height : Z) : list Z :=
  match fuel with
  | O => []
  | S fuel' =>
      if row <? image_height
      then row :: interlace_pass fuel' (row + rowskip) rowskip image_height
      else []
  end.

(** The true row stored at each index of the row table, in the order
    [rowcount] runs through the table. *)
Definition iwgif_row_order (interlaced : Z) (image_height : Z) : list Z :=
  let fuel := Z.to_nat image_height in
  if truthy interlaced then
    interlace_pass fuel 0 8 image_height       (* pass 1: startrow=0, rowskip=8 *)
    ++ interlace_pass fuel 4 8 image_height    (* pass 2: startrow=4, rowskip=8 *)
    ++ interlace_pass fuel 2 4 image_height    (* pass 3: startrow=2, rowskip=4 *)
    ++ interlace_pass fuel 1 2 image_height    (* pass 4: startrow=1, rowskip=2 *)
  else interlace_pass fuel 0 1 image_height.

(** [&img->pixels[(rctx->image_top+row)*img->bpr +
    (rctx->image_left)*rctx->bytes_per_pixel]], as an offset into the
    canvas. *)
Definition row_pointer (rctx : iwgifreadcontext) (row : Z) : Z :=
  (image_top rctx + row) * bpr (img rctx) + image_left rctx * bytes_per_pixel rctx.

(** [iwgif_make_row_pointers]: make an array of pointers into the global
    screen, which point to the start of each row in the local image. The
    table has [image_height] slots and the loops fill slot 0, 1, 2, ...;
    the list holds the slots in that order. A pointer takes 8 bytes. *)
Definition iwgif_make_row_pointers (rctx : iwgifreadcontext) : Z * iwgifreadcontext :=
  if negb (iw_malloc (8 * image_height rctx))
  then (0, set_row_pointers None rctx) else
  (1, set_row_pointers
        (Some (row_pointer rctx <$> iwgif_row_order (interlaced rctx) (image_height rctx)))
        rctx).

(** The [while(1)] of [iwgif_read_image] over the subblocks of the image
    data. Every round takes at least one byte from the source or leaves
    the loop. *)
Fixpoint iwgif_read_image_loop (fuel : nat) (rctx : iwgifreadcontext) (d : lzwdeccontext)
  : outcome (Z * iwgifreadcontext * lzwdeccontext) :=
  match fuel with
  | O => Diverges
  | S fuel' =>
      (* Read size of next subblock *)
      let '(ok, rctx) := iwgif_read rctx 1 in
      if negb (truthy ok) then mret (0, rctx, d) else
      subblocksize ← rbuf_at rctx 0;
      if subblocksize =? 0 then mret (1, rctx, d) else
      (* Read next subblock *)
      let '(ok, rctx) := iwgif_read rctx subblocksize in
      if negb (truthy ok) then mret (0, rctx, d) else
      '(ok, rctx, d) ← lzw_process_bytes rctx d (take (Z.to_nat subblocksize) (rbuf rctx));
      if negb (truthy ok) then mret (0, rctx, d) else
      if truthy (eoi_flag d) then mret (1, rctx, d) else
      (* Stop if we reached the end of the image. We don't care if we've read an
         EOI code or not. *)
      if total_npixels rctx <=? pixels_set rctx then mret (1, rctx, d) else
      iwgif_read_image_loop fuel' rctx d
  end.

(** The part of [iwgif_read_image] before the subblock loop; on success
    the decoder state the loop starts from is returned too. The product
    [image_width * image_height] is a product of [int]s. *)
Definition iwgif_read_image_start (rctx : iwgifreadcontext)
  : outcome (Z * iwgifreadcontext * option lzwdeccontext) :=
  (* Read image header information *)
  let '(ok, rctx) := iwgif_read rctx 10 in
  if negb (truthy ok) then mret (0, rctx, None) else
  v ← iw_read_uint16le rctx 0;
  let rctx := set_image_left v rctx in
  v ← iw_read_uint16le rctx 2;
  let rctx := set_image_height v rctx in
  v ← iw_read_uint16le rctx 4;
  let rctx := set_image_width v rctx in
  v ← iw_read_uint16le rctx 6;
  let rctx := set_image_height v rctx in
  b8 ← rbuf_at rctx 8;
  let rctx := set_interlaced (Z.land (Z.shiftr b8 6) 1) rctx in
  let has_local_ct := Z.land (Z.shiftr b8 7) 1 in
  let rctx :=
    if truthy has_local_ct then
      let local_ct_size := Z.land b8 7 in
      set_colortable (Build_iw_palette (Z.shiftl 1 (1 + local_ct_size))
                                       (entry (colortable rctx))) rctx
    else rctx in
  '(ok, rctx) ←
    (if truthy has_local_ct then
       (* We only support one image, so we don't need to keep both a global and a
          local color table. If an image has both, the local table will overwrite
          the global one. *)
       iwgif_read_color_table rctx
     else mret (1, rctx));
  if negb (truthy ok) then mret (0, rctx, None) else
  root_codesize ← rbuf_at rctx 9;
  (* The spec does not allow the "minimum code size" to be less than 2.
     Sizes >=12 are impossible to support. *)
  if (root_codesize <? 2) || (11 <? root_codesize)
  then mret (0, iw_seterror iws_gif_inval_lzw_min rctx, None) else
  (* The creation fo the global "screen" was deferred until now, to wait until
     we know whether the first image has transparency. *)
  let '(ok, rctx) := iwgif_init_screen rctx in
  if negb (truthy ok) then mret (0, rctx, None) else
  if 2 ^ 31 <=? image_width rctx * image_height rctx then Undefined else
  let rctx := set_total_npixels (usz (image_width rctx * image_height rctx)) rctx in
  let '(ok, rctx) := iwgif_make_row_pointers rctx in
  if negb (truthy ok) then mret (0, rctx, None) else
  d ← lzw_init root_codesize;
  mret (1, rctx, Some (lzw_clear d)).

Definition iwgif_read_image (rctx : iwgifreadcontext) : outcome (Z * iwgifreadcontext) :=
  '(ok, rctx, od) ← iwgif_read_image_start rctx;
  match od with
  | None => mret (ok, rctx)
  | Some d =>
      '(ok, rctx, _) ← iwgif_read_image_loop (S (length (iodescr rctx))) rctx d;
      mret (ok, rctx)
  end.

(** ** The file *)

(** The loop of [iwgif_read_main] making all colors opaque. *)
Fixpoint iwgif_opaque_loop (n : nat) (i : Z) (rctx : iwgifreadcontext)
  : outcome iwgifreadcontext :=
  match n with
  | O => mret rctx
  | S n' =>
      e ← defined (array_get (entry (colortable rctx)) i);
      ents ← defined (array_set (entry (colortable rctx)) i
                        (Build_iw_rgba8color (cr e) (cg e) (cb e) 255));
      iwgif_opaque_loop n' (i + 1)
        (set_colortable (Build_iw_palette (num_entries (colortable rctx)) ents) rctx)
  end.

(** The [while(1)] of [iwgif_read_main] over the blocks of the file.
    [retvals k] is what the variable [retval] holds on entry of the
    [k]-th call of [iwgif_read_graphics_control_ext] from here on. *)
Fixpoint iwgif_read_blocks (fuel : nat) (retvals : nat -> Z) (rctx : iwgifreadcontext)
  : outcome (Z * iwgifreadcontext) :=
  match fuel with
  | O => Diverges
  | S fuel' =>
      (* Read block type *)
      let '(ok, rctx) := iwgif_read rctx 1 in
      if negb (truthy ok) then mret (0, rctx) else
      block ← rbuf_at rctx 0;
      if block =? 33 (* 0x21: extension *) then
        '(ok, rctx) ← iwgif_read_extension (retvals O) rctx;
        if negb (truthy ok) then mret (0, rctx) else
        iwgif_read_blocks fuel' (fun k => retvals (S k)) rctx
      else if block =? 44 (* 0x2c: image *) then
        '(ok, rctx) ← iwgif_read_image rctx;
        if negb (truthy ok) then mret (0, rctx) else mret (1, rctx)
      else if block =? 59 (* 0x3b: file trailer *) then
        (* We stop after reading the first image, so if we ever see a file
           trailer, something's wrong. *)
        mret (0, iw_seterror iws_gif_no_image rctx)
      else
        mret (0, iw_seterror iws_gif_unsupported rctx)
  end.

(** The part of [iwgif_read_main] before the loop over the blocks. *)
Definition iwgif_read_main_start (rctx : iwgifreadcontext)
  : outcome (Z * iwgifreadcontext) :=
  (* Make all colors opaque by default. *)
  rctx ← iwgif_opaque_loop 256 0 rctx;
  '(ok, rctx) ← iwgif_read_file_header rctx;
  if negb (truthy ok) then mret (0, rctx) else
  '(ok, rctx) ← iwgif_read_screen_descriptor rctx;
  if negb (truthy ok) then mret (0, rctx) else
  (* Read global color table *)
  '(ok, rctx) ← iwgif_read_color_table rctx;
  if negb (truthy ok) then mret (0, rctx) else
  (* Tell IW the background color. *)
  rctx ←
    (if truthy (has_bg_color rctx) then
       e ← defined (array_get (entry (colortable rctx)) (bg_color_index rctx));
       mret (set_ctx (set_bkgd_label (Some (cr e, cg e, cb e)) (ctx rctx)) rctx)
     else mret rctx);
  mret (1, rctx).

Definition iwgif_read_main (retvals : nat -> Z) (rctx : iwgifreadcontext)
  : outcome (Z * iwgifreadcontext) :=
  '(ok, rctx) ← iwgif_read_main_start rctx;
  if negb (truthy ok) then mret (0, rctx) else
  iwgif_read_blocks (S (length (iodescr rctx))) retvals rctx.

(** The context [iw_read_gif_file] starts from: the [memset] to zero, the
    byte source, and the colorspace description. *)
Definition rctx_init (c : iw_context) (source : list Z) : iwgifreadcontext :=
  {| iodescr := source;
     ctx := c;
     img := Build_iw_image IW_IMGTYPE_NONE 0 0 0 None 0 IW_DENSITY_UNKNOWN (0, 1) (0, 1);
     (* Assume GIF images are sRGB. *)
     csdescr := Build_iw_csdescr IW_CSTYPE_SRGB IW_sRGB_INTENT_PERCEPTUAL;
     screen_width := 0; screen_height := 0;
     image_width := 0; image_height := 0;
     image_left := 0; image_top := 0;
     screen_initialized := 0; interlaced := 0; bytes_per_pixel := 0;
     has_transparency := 0; has_bg_color := 0; bg_color_index := 0;
     trans_color_index := 0;
     pixels_set := 0; total_npixels := 0;
     row_pointers := None;
     colortable := Build_iw_palette 0 (replicate 256 (Build_iw_rgba8color 0 0 0 0));
     rbuf := replicate 768 0 |}.

(** [iw_read_gif_file], given the bytes of the source: the returned
    [int], the library context, and the reader's context as it is when it
    is freed. The reader's own context is the first thing allocated. *)
Definition iw_read_gif_file (sizeof_rctx : Z) (retvals : nat -> Z)
    (c : iw_context) (source : list Z)
  : outcome (Z * iw_context * option iwgifreadcontext) :=
  if negb (iw_malloc sizeof_rctx)
  then mret (0, set_errors (errors c ++ [iws_gif_read_error]) c, None) else
  '(ok, rctx) ← iwgif_read_main retvals (rctx_init c source);
  if negb (truthy ok)
  then mret (0, ctx (iw_seterror iws_gif_read_error rctx), Some rctx)
  else
    mret (1, set_input_colorspace (Some (csdescr rctx))
               (set_input_image (Some (img rctx)) (ctx rctx)),
          Some rctx).

End Reader.

(** * Notions the properties are stated with *)

(** The four interlace passes as (start, step) pairs. *)
Definition interlace_passes : list (Z * Z) := [(0, 8); (4, 8); (2, 4); (1, 2)].

(** The decoder states the reader can get into for root code size [R]:
    the state [iwgif_read_image] starts from, and from there on whatever
    [lzw_process_code] leaves for a code of at most [current_codesize]
    bits. Between two codes [lzw_process_bytes] gathers bits in
    [pending_code] and [bits_in_pending_code], which [lzw_process_code]
    does not look at. *)
Inductive lzw_reachable (R : Z) : lzwdeccontext -> Prop :=
| lzw_reach_init d0 :
    lzw_init R = Normal d0 ->
    lzw_reachable R (lzw_clear d0)
| lzw_reach_bits d p n :
    lzw_reachable R d ->
    lzw_reachable R (set_bits_in_pending_code n (set_pending_code p d))
| lzw_reach_code d rctx code ok rctx' d' :
    lzw_reachable R d ->
    0 <= code < 2 ^ current_codesize d ->
    lzw_process_code rctx d code = Normal (ok, rctx', d') ->
    lzw_reachable R d'.

(** The code size that goes with a number of used entries. *)
Definition codesize_ok (cs u : Z) : Prop :=
  3 <= cs <= 12 /\ 2 ^ (cs - 1) <= u /\ (u < 2 ^ cs \/ (cs = 12 /\ u = 4096)).

(** What holds of every reachable decoder state. *)
Record lzw_inv (R : Z) (d : lzwdeccontext) : Prop := Build_lzw_inv {
  inv_root_codesize : root_codesize d = R;
  inv_num_root_codes : num_root_codes d = 2 ^ R;
  inv_clear_code : clear_code d = 2 ^ R;
  inv_eoi_code : eoi_code d = 2 ^ R + 1;
  inv_ct_used : 2 ^ R + 2 <= ct_used d <= 4096;
  inv_codesize : codesize_ok (current_codesize d) (ct_used d);
  inv_oldcode : 0 <= oldcode d < 4096;
  inv_ct : length (ct d) = 4096%nat;
  inv_ncodes : 0 <= ncodes_since_clear d
}.

(** The bits gathered for the next code fit below the code size. *)
Definition pending_ok (d : lzwdeccontext) : Prop :=
  0 <= bits_in_pending_code d < current_codesize d
  /\ 0 <= pending_code d < 2 ^ bits_in_pending_code d.

(** The context with another canvas and another pixel count: all that
    recording pixels changes. *)
Definition canvas_write (rctx : iwgifreadcontext) (px : option (list Z)) (ps : Z)
  : iwgifreadcontext :=
  set_pixels_set ps (set_img (set_pixels px (img rctx)) rctx).

(** The context with another source, buffer, library context, canvas
    and pixel count: all that reading and decoding the image data
    changes. *)
Definition frame_write (rctx : iwgifreadcontext) (io rb : list Z) (c : iw_context)
    (px : option (list Z)) (ps : Z) : iwgifreadcontext :=
  set_pixels_set ps
    (set_img (set_pixels px (img rctx))
       (set_ctx c (set_rbuf rb (set_iodescr io rctx)))).

(** [decoding_frame r r']: [r'] is [r] but for those fields. *)
Definition decoding_frame (r r' : iwgifreadcontext) : Prop :=
  exists io rb c px ps, r' = frame_write r io rb c px ps.

(** [lzw_frame r r']: moreover the source and the buffer are those of
    [r]; all that the decompressor changes. *)
Definition lzw_frame (r r' : iwgifreadcontext) : Prop :=
  exists c px ps, r' = frame_write r (iodescr r) (rbuf r) c px ps.

(** What parsing an image block leaves as the blocks before it set it:
    the top of the image, the transparency flag, and the alpha and the
    number of slots of the palette. *)
Definition keeps_transparency (r r' : iwgifreadcontext) : Prop :=
  image_top r' = image_top r
  /\ has_transparency r' = has_transparency r
  /\ length (entry (colortable r')) = length (entry (colortable r))
  /\ forall j, ca <$> array_get (entry (colortable r')) j
              = ca <$> array_get (entry (colortable r)) j.







(** What of a reader context decides whether recording a pixel is
    defined: everything but the bytes of the canvas, and with it the size
    of the canvas. *)
Definition canvas_shape (r : iwgifreadcontext) : iwgifreadcontext * option nat :=
  (set_img (set_pixels None (img r)) r, length <$> pixels (img r)).

(** Does the call return. *)
Definition returns {A : Type} (o : outcome A) : bool :=
  match o with Normal _ => true | _ => false end.

(** Does a round of the emission loop at [code] go on to the parent, for
    a canvas of the shape of that of [r]. *)
Definition emit_goes_on (r : iwgifreadcontext) (d : lzwdeccontext) (code : Z) : bool :=
  match array_get (ct d) code with
  | Some e =>
      returns (iwgif_record_pixel r (value e) (int_of_unsigned (length_ e)))
      && (1 <=? length_ e)
  | None => false
  end.

(** The parent of [code], and the code the loop is at after [k] rounds. *)
Definition emit_parent (d : lzwdeccontext) (code : Z) : Z :=
  match array_get (ct d) code with Some e => reference e | None => 0 end.

Definition emit_code_at (d : lzwdeccontext) (code : Z) (k : nat) : Z :=
  Nat.iter k (emit_parent d) code.

(** A decoder state to try the statements on: the one [iwgif_read_image]
    starts from for root code size 2. *)
Definition lzw_start_2 : lzwdeccontext :=
  match lzw_init 2 with
  | Normal d0 => lzw_clear d0
  | _ => lzw_clear (Build_lzwdeccontext 2 0 0 0 0 0 4 0 4 5 0 zero_table)
  end.

(** The decoder state after the first code, 0, has been processed from
    [lzw_start_2]. *)
Definition lzw_after_first_code (rctx : iwgifreadcontext) : lzwdeccontext :=
  match lzw_process_code rctx lzw_start_2 0 with
  | Normal (_, _, d) => d
  | _ => lzw_start_2
  end.

(** A reader context to try the statements on: a 2x2 screen with four
    palette entries, the image filling it, and the canvas allocated.
    [source] is what the byte source still holds. *)
Definition rctx_2x2 (source : list Z) : iwgifreadcontext :=
  let rctx := rctx_init (Build_iw_context [] None None None) source in
  let rctx := set_screen_width 2 (set_screen_height 2 rctx) in
  let rctx := set_image_width 2 (set_image_height 2 rctx) in
  let rctx := set_total_npixels 4 rctx in
  let rctx := set_bytes_per_pixel 3 (set_screen_initialized 1 rctx) in
  let rctx := set_colortable (Build_iw_palette 4 (entry (colortable rctx))) rctx in
  let rctx := set_img (Build_iw_image IW_IMGTYPE_RGB 8 2 2 (Some (replicate 12 0)) 6
                         IW_DENSITY_UNKNOWN (0, 1) (0, 1)) rctx in
  set_row_pointers (Some [0; 6]) rctx.

(** The library context a decode starts with: nothing reported yet. *)
Definition ctx_empty : iw_context := Build_iw_context [] None None None.

(** A library that accepts every size and never runs out of memory;
    [retvals] is what [iwgif_read_graphics_control_ext] finds in its
    variable [retval]. *)
Definition decode (retvals : nat -> Z) (source : list Z)
  : outcome (Z * iw_context * option iwgifreadcontext) :=
  iw_read_gif_file (fun _ _ => true) (fun _ _ => true) (fun _ => true)
    1 retvals ctx_empty source.

(** The start of a GIF file with a 2x2 screen and a global palette of
    four colors (10,11,12), (20,21,22), (30,31,32), (40,41,42). *)
Definition gif_head_2x2 : list Z :=
  [71; 73; 70; 56; 57; 97;            (* GIF89a *)
   2; 0; 2; 0; 129; 0; 0;             (* 2x2, global table of 4, no aspect ratio *)
   10; 11; 12; 20; 21; 22; 30; 31; 32; 40; 41; 42].

(** An image block: descriptor (left, top, width, height, flags), LZW
    minimum code size 2, one subblock [data], the terminator. *)
Definition gif_image (left top w h : Z) (data : list Z) : list Z :=
  [44; left; 0; top; 0; w; 0; h; 0; 0; 2]
  ++ [Z.of_nat (length data)] ++ data ++ [0].

(** The codes clear, 0, 1, end-of-information at 3 bits each. *)
Definition lzw_two_pixels : list Z := [68; 10].

(** A 2x1 image placed at left 0, top 1 of the 2x2 screen. *)
Definition gif_image_at_top_1 : list Z :=
  gif_head_2x2 ++ gif_image 0 1 2 1 lzw_two_pixels ++ [59].

(** A graphics control extension whose terminator byte is 1, followed by
    a 2x1 image at left 0, top 0. *)
Definition gif_malformed_gce : list Z :=
  gif_head_2x2 ++ [33; 249; 4; 1; 0; 0; 2; 1]
  ++ gif_image 0 0 2 1 lzw_two_pixels ++ [59].

(** A 2x2 image whose data starts with the codes 6, 0, 6 at 3 bits. *)
Definition gif_self_reference : list Z :=
  gif_head_2x2 ++ gif_image 0 0 2 2 [134; 1] ++ [59].

(** A 2x2 image whose data holds the codes clear, 0, 1, 2, 3, 0,
    end-of-information: five pixels. *)
Definition gif_five_pixels_in_2x2 : list Z :=
  gif_head_2x2 ++ gif_image 0 0 2 2 [68; 52; 80] ++ [59].

(** A 2x1 image on the 2x2 screen whose data holds the same five
    pixels. *)
Definition gif_five_pixels_in_2x1 : list Z :=
  gif_head_2x2 ++ gif_image 0 0 2 1 [68; 52; 80] ++ [59].

(** The reader context as [iwgif_read_main] has it when it enters the
    loop over the blocks of the file [source], for a library that accepts
    every size. *)
Definition rctx_after_header (source : list Z) : iwgifreadcontext :=
  match iwgif_read_main_start (fun _ _ => true) (rctx_init ctx_empty source) with
  | Normal (_, r) => r
  | _ => rctx_init ctx_empty source
  end.

(** The decoder state after the bytes [data] have been decoded from
    [lzw_start_2]. The byte 0 holds the codes 0, 0 at 3 bits: seven
    entries are used after it. A run of zero bytes is a run of codes 0,
    each of which appends an entry: 6144 of them fill the table. *)
Definition lzw_after_bytes (data : list Z) : lzwdeccontext :=
  match lzw_process_bytes (rctx_2x2 []) lzw_start_2 data with
  | Normal (_, _, d) => d
  | _ => lzw_start_2
  end.

Definition lzw_seven_used : lzwdeccontext := lzw_after_bytes [0].

Definition lzw_table_full : lzwdeccontext :=
  lzw_after_bytes (replicate (Z.to_nat 6144) 0).

(** * Proof steps used more than once *)

(** One case for each root code size the reader admits, and one for each
    code size. *)
Ltac each_root_codesize R :=
  let H := fresh "Hc" in
  assert (H : R = 2 \/ R = 3 \/ R = 4 \/ R = 5 \/ R = 6 \/ R = 7 \/ R = 8
              \/ R = 9 \/ R = 10 \/ R = 11) by lia;
  destruct H as [->|[->|[->|[->|[->|[->|[->|[->|[->| ->]]]]]]]]].

Ltac each_codesize cs :=
  let H := fresh "Hc" in
  assert (H : cs = 3 \/ cs = 4 \/ cs = 5 \/ cs = 6 \/ cs = 7 \/ cs = 8
              \/ cs = 9 \/ cs = 10 \/ cs = 11 \/ cs = 12) by lia;
  destruct H as [->|[->|[->|[->|[->|[->|[->|[->|[->| ->]]]]]]]]].

(** The eta rule of the reader context, its image and its palette. *)
Ltac eta_rctx r :=
  destruct r as [? ? [] ? ? ? ? ? ? ? ? ? ? ? ? ? ? ? ? ? [] ?]; reflexivity.

(** * Properties *)

(** ** Machine integers and arrays *)

Lemma u32_small (x : Z) : 0 <= x < 2 ^ 32 -> u32 x = x.
Proof. intros H. unfold u32. apply Z.mod_small. exact H. Qed.





Lemma int_of_unsigned_small (x : Z) : x < 2 ^ 31 -> int_of_unsigned x = x.
Proof.
  intros H. unfold int_of_unsigned.
  destruct (Z.ltb_spec x (2 ^ 31)); [reflexivity | lia].
Qed.

Lemma array_set_length {A : Type} (l l' : list A) (i : Z) (x : A) :
  array_set l i x = Some l' -> length l' = length l.
Proof.
  unfold array_set. destruct (_ && _); [|discriminate].
  intros [= <-]. apply length_insert.
Qed.

Lemma array_set_in_range {A : Type} (l : list A) (i : Z) (x : A) :
  0 <= i < Z.of_nat (length l) ->
  array_set l i x = Some (<[Z.to_nat i := x]> l).
Proof.
  intros [H0 H1]. unfold array_set.
  destruct (Z.leb_spec 0 i); [|lia].
  destruct (Z.ltb_spec i (Z.of_nat (length l))); [reflexivity | lia].
Qed.

Lemma array_get_in_range {A : Type} (l : list A) (i : Z) :
  0 <= i < Z.of_nat (length l) ->
  exists x, array_get l i = Some x.
Proof.
  intros [H0 H1]. unfold array_get.
  destruct (Z.leb_spec 0 i); [|lia].
  destruct (Z.ltb_spec i (Z.of_nat (length l))); [|lia]. simpl.
  apply lookup_lt_is_Some. lia.
Qed.

Lemma array_get_set_eq {A : Type} (l l' : list A) (i : Z) (x : A) :
  array_set l i x = Some l' -> array_get l' i = Some x.
Proof.
  unfold array_set, array_get.
  destruct (Z.leb_spec 0 i); [|discriminate].
  destruct (Z.ltb_spec i (Z.of_nat (length l))); [|discriminate]. simpl.
  intros [= <-]. rewrite length_insert.
  destruct (Z.ltb_spec i (Z.of_nat (length l))); [|lia].
  apply list_lookup_insert_eq. lia.
Qed.

Lemma array_get_set_ne {A : Type} (l l' : list A) (i j : Z) (x : A) :
  array_set l i x = Some l' -> i <> j -> array_get l' j = array_get l j.
Proof.
  unfold array_set, array_get.
  destruct (Z.leb_spec 0 i); [|discriminate].
  destruct (Z.ltb_spec i (Z.of_nat (length l))); [|discriminate]. simpl.
  intros [= <-] Hne. rewrite length_insert.
  destruct (0 <=? j) eqn:Hj; [|reflexivity].
  destruct (j <? Z.of_nat (length l)); [|reflexivity]. simpl.
  apply list_lookup_insert_ne. apply Z.leb_le in Hj. lia.
Qed.

(** ** The code size follows the number of used entries *)

Lemma last_code_of_size_true (u : Z) :
  last_code_of_size u = true <->
  u = 7 \/ u = 15 \/ u = 31 \/ u = 63 \/ u = 127 \/ u = 255 \/ u = 511
  \/ u = 1023 \/ u = 2047.
Proof.
  unfold last_code_of_size. rewrite !orb_true_iff, !Z.eqb_eq. tauto.
Qed.

Lemma codesize_ok_append (cs u : Z) :
  codesize_ok cs u -> u < 4096 ->
  codesize_ok (if last_code_of_size u then cs + 1 else cs) (u + 1).
Proof.
  intros (Hcs & Hlo & Hhi) Hu.
  destruct Hhi as [Hhi | [_ ->]]; [|lia].
  destruct (last_code_of_size u) eqn:Hb.
  - apply last_code_of_size_true in Hb. unfold codesize_ok.
    each_codesize cs; simpl in *; lia.
  - assert (Hn : ~ (u = 7 \/ u = 15 \/ u = 31 \/ u = 63 \/ u = 127 \/ u = 255
                    \/ u = 511 \/ u = 1023 \/ u = 2047)).
    { rewrite <- last_code_of_size_true. congruence. }
    unfold codesize_ok.
    each_codesize cs; simpl in *; lia.
Qed.

(** ** Decoder states *)

Lemma lzw_init_roots_ok (n : nat) (i : Z) (tbl : list lzw_tableentry) :
  0 <= i -> i + Z.of_nat n <= Z.of_nat (length tbl) ->
  exists tbl', lzw_init_roots n i tbl = Normal tbl' /\ length tbl' = length tbl.
Proof.
  revert i tbl. induction n as [|n IH]; intros i tbl Hi Hn.
  - exists tbl. split; reflexivity.
  - simpl. rewrite array_set_in_range by lia. simpl.
    destruct (IH (i + 1) (<[Z.to_nat i := Build_lzw_tableentry 0 0 (u8 i) (u8 i)]> tbl))
      as (tbl' & Hr & Hl).
    + lia.
    + rewrite length_insert. lia.
    + exists tbl'. split; [exact Hr|]. rewrite Hl. apply length_insert.
Qed.

Lemma pow2_root_bounds (R : Z) : 2 <= R <= 11 -> 4 <= 2 ^ R <= 2048.
Proof.
  intros HR.
  each_root_codesize R; simpl; lia.
Qed.

Lemma codesize_ok_clear (R : Z) : 2 <= R <= 11 -> codesize_ok (R + 1) (2 ^ R + 2).
Proof.
  intros HR. unfold codesize_ok.
  each_root_codesize R; simpl; lia.
Qed.

Lemma codesize_ok_pow (cs u : Z) : codesize_ok cs u -> 2 ^ cs <= 4096.
Proof.
  intros (Hcs & _ & _).
  each_codesize cs; simpl; lia.
Qed.

(** [lzw_init] returns for the root code sizes the reader admits, with
    the constants of the format. *)
Lemma lzw_init_ok (R : Z) :
  2 <= R <= 11 ->
  exists d0, lzw_init R = Normal d0
    /\ root_codesize d0 = R /\ num_root_codes d0 = 2 ^ R
    /\ clear_code d0 = 2 ^ R /\ eoi_code d0 = 2 ^ R + 1
    /\ length (ct d0) = 4096%nat
    /\ oldcode d0 = 0 /\ ncodes_since_clear d0 = 0 /\ eoi_flag d0 = 0
    /\ pending_code d0 = 0 /\ bits_in_pending_code d0 = 0.
Proof.
  intros HR. pose proof (pow2_root_bounds R HR) as Hp.
  unfold lzw_init.
  destruct (Z.ltb_spec R 0); [lia|].
  destruct (Z.leb_spec 32 R); [lia|]. simpl.
  rewrite Z.shiftl_1_l.
  rewrite (u32_small (2 ^ R)) by lia.
  destruct (lzw_init_roots_ok (Z.to_nat (2 ^ R)) 0 zero_table)
    as (tbl & Hr & Hl).
  - lia.
  - unfold zero_table. rewrite length_replicate. lia.
  - rewrite Hr. simpl. eexists. split; [reflexivity|]. simpl.
    rewrite u32_small by lia. rewrite Hl. unfold zero_table.
    rewrite length_replicate. tauto.
Qed.

Lemma lzw_clear_inv (R : Z) (d : lzwdeccontext) :
  2 <= R <= 11 ->
  root_codesize d = R -> num_root_codes d = 2 ^ R ->
  clear_code d = 2 ^ R -> eoi_code d = 2 ^ R + 1 ->
  length (ct d) = 4096%nat ->
  lzw_inv R (lzw_clear d).
Proof.
  intros HR H1 H2 H3 H4 H5. pose proof (pow2_root_bounds R HR) as Hp.
  split; simpl; try assumption; try lia.
  - rewrite H2, u32_small; lia.
  - rewrite H1, H2, !u32_small by lia. apply codesize_ok_clear, HR.
Qed.

(** What [lzw_add_to_dict] does to a state that satisfies the invariant:
    nothing when the table is full, and otherwise one entry more, at the
    position [ct_used] had. *)
Lemma lzw_add_to_dict_spec (R : Z) (d : lzwdeccontext) (oc val : Z) :
  lzw_inv R d -> 0 <= oc < 4096 ->
  (ct_used d = 4096 /\ lzw_add_to_dict d oc val = Normal (-1, d))
  \/ (ct_used d < 4096 /\
      exists old tbl,
        array_get (ct d) oc = Some old
        /\ array_set (ct d) (ct_used d)
             (Build_lzw_tableentry oc (u32 (length_ old + 1)) val (firstchar old)) = Some tbl
        /\ lzw_add_to_dict d oc val =
           Normal (ct_used d,
                   (if last_code_of_size (ct_used d)
                    then set_current_codesize (current_codesize d + 1)
                    else fun d => d)
                     (set_ct tbl (set_ct_used (ct_used d + 1) d)))).
Proof.
  intros Hinv Hoc. destruct Hinv as [_ _ _ _ Hu Hcs _ Hct _].
  assert (H2R : 0 <= 2 ^ R) by (apply Z.pow_nonneg; lia).
  unfold lzw_add_to_dict.
  destruct (Z.leb_spec 4096 (ct_used d)) as [Hfull|Hfree].
  - left. split; [lia | reflexivity].
  - right. split; [exact Hfree|].
    destruct (array_get_in_range (ct d) oc) as [old Hold]; [lia|].
    exists old, (<[Z.to_nat (ct_used d) := Build_lzw_tableentry oc (u32 (length_ old + 1))
                                             val (firstchar old)]> (ct d)).
    split; [exact Hold|].
    split; [apply array_set_in_range; lia|].
    rewrite int_of_unsigned_small by lia.
    unfold ct_at. simpl. rewrite Hold. simpl.
    rewrite (u32_small oc) by lia.
    rewrite array_set_in_range by lia. simpl.
    rewrite (u32_small (ct_used d + 1)) by lia.
    destruct (last_code_of_size (ct_used d)); [|reflexivity].
    simpl. rewrite u32_small; [reflexivity|].
    destruct Hcs as (? & _ & _). lia.
Qed.

Lemma lzw_add_to_dict_inv (R : Z) (d d' : lzwdeccontext) (oc val pos : Z) :
  lzw_inv R d -> 0 <= oc < 4096 ->
  lzw_add_to_dict d oc val = Normal (pos, d') ->
  lzw_inv R d'
  /\ oldcode d' = oldcode d /\ ncodes_since_clear d' = ncodes_since_clear d
  /\ eoi_flag d' = eoi_flag d.
Proof.
  intros Hinv Hoc Hadd.
  destruct (lzw_add_to_dict_spec R d oc val Hinv Hoc)
    as [[Hfull Heq] | (Hfree & old & tbl & Hold & Htbl & Heq)];
    rewrite Heq in Hadd; injection Hadd as <- <-.
  - tauto.
  - pose proof (array_set_length _ _ _ _ Htbl) as Hlen.
    destruct Hinv as [H1 H2 H3 H4 H5 H6 H7 H8 H9].
    pose proof (codesize_ok_append _ _ H6 Hfree) as Hcs.
    destruct (last_code_of_size (ct_used d)); simpl;
      (split; [split; simpl; try assumption; try lia | tauto]).
Qed.

(** Every call of [lzw_process_code] that returns keeps the invariant. *)
Lemma lzw_process_code_inv (R : Z) (rctx rctx' : iwgifreadcontext)
    (d d' : lzwdeccontext) (code ok : Z) :
  2 <= R <= 11 -> lzw_inv R d -> 0 <= code < 4096 ->
  lzw_process_code rctx d code = Normal (ok, rctx', d') ->
  lzw_inv R d'.
Proof.
  intros HR Hinv Hcode. unfold lzw_process_code.
  assert (Hoc : 0 <= int_of_unsigned (oldcode d) < 4096).
  { rewrite int_of_unsigned_small; destruct Hinv; lia. }
  destruct (code =? eoi_code d).
  { intros [= _ _ <-]. destruct Hinv. split; simpl; assumption. }
  destruct (code =? clear_code d).
  { intros [= _ _ <-]. destruct Hinv. apply lzw_clear_inv; assumption. }
  set (d1 := set_ncodes_since_clear (ncodes_since_clear d + 1) d).
  assert (Hinv1 : lzw_inv R d1).
  { destruct Hinv. split; simpl; try assumption; lia. }
  destruct (ncodes_since_clear d1 =? 1).
  { destruct (lzw_emit_code rctx d1 code); simpl; try discriminate.
    intros [= _ _ <-]. destruct Hinv1. split; simpl; try assumption; lia. }
  destruct (code <? ct_used d1).
  { destruct (lzw_emit_code rctx d1 code); simpl; try discriminate.
    destruct (ct_at d1 code) as [e| |]; simpl; try discriminate.
    destruct (lzw_add_to_dict d1 _ _) as [[pos d2]| |] eqn:Hadd; simpl; try discriminate.
    intros [= _ _ <-].
    apply lzw_add_to_dict_inv with (R := R) in Hadd; [|exact Hinv1|].
    - destruct Hadd as [[] _]. split; simpl; try assumption; lia.
    - exact Hoc. }
  destruct (ct_used d1 <=? oldcode d1).
  { intros [= _ _ <-]. exact Hinv1. }
  destruct (ct_at d1 (oldcode d1)) as [e| |]; simpl; try discriminate.
  destruct (lzw_add_to_dict d1 _ _) as [[pos d2]| |] eqn:Hadd; simpl; try discriminate.
  destruct (if 0 <=? pos then _ else _); simpl; try discriminate.
  intros [= _ _ <-].
  apply lzw_add_to_dict_inv with (R := R) in Hadd; [|exact Hinv1|].
  - destruct Hadd as [[] _]. split; simpl; try assumption; lia.
  - exact Hoc.
Qed.

(** The invariant holds in every reachable state. *)
Lemma lzw_reachable_inv (R : Z) (d : lzwdeccontext) :
  2 <= R <= 11 -> lzw_reachable R d -> lzw_inv R d.
Proof.
  intros HR Hd. induction Hd as [d0 Hinit | d p n _ IH | d rctx code ok rctx' d' _ IH Hc Hp].
  - destruct (lzw_init_ok R HR) as (d0' & Hinit' & H1 & H2 & H3 & H4 & H5 & _).
    rewrite Hinit in Hinit'. injection Hinit' as <-.
    apply lzw_clear_inv; assumption.
  - destruct IH. split; simpl; assumption.
  - apply (lzw_process_code_inv R rctx rctx' d d' code ok HR IH); [|exact Hp].
    pose proof (codesize_ok_pow _ _ (inv_codesize _ _ IH)). lia.
Qed.

(** ** The bit reader stays among the reachable states *)

Lemma lor_lt_pow2 (a b m : Z) :
  0 < m -> 0 <= a < 2 ^ m -> 0 <= b < 2 ^ m -> 0 <= Z.lor a b < 2 ^ m.
Proof.
  intros Hm Ha Hb.
  assert (H0 : 0 <= Z.lor a b) by (apply Z.lor_nonneg; lia).
  split; [exact H0|].
  destruct (Z.eq_dec (Z.lor a b) 0) as [->|Hne].
  - apply Z.pow_pos_nonneg; lia.
  - apply Z.log2_lt_pow2; [lia|].
    rewrite Z.log2_lor by lia.
    assert (Hla : Z.log2 a < m).
    { destruct (Z.eq_dec a 0) as [->|]; [simpl; lia|]. apply Z.log2_lt_pow2; lia. }
    assert (Hlb : Z.log2 b < m).
    { destruct (Z.eq_dec b 0) as [->|]; [simpl; lia|]. apply Z.log2_lt_pow2; lia. }
    lia.
Qed.

Lemma set_pending_code_same (d : lzwdeccontext) :
  set_pending_code (pending_code d) d = d.
Proof. destruct d; reflexivity. Qed.

Lemma lzw_process_bit_reachable (R : Z) (rctx rctx' : iwgifreadcontext)
    (d d' : lzwdeccontext) (byte b : Z) (fl : flow) :
  2 <= R <= 11 -> lzw_reachable R d -> pending_ok d ->
  lzw_process_bit rctx d byte b = Normal (fl, rctx', d') ->
  lzw_reachable R d' /\ (fl <> Done 0 -> pending_ok d').
Proof.
  intros HR Hd [Hbits Hpend]. pose proof (lzw_reachable_inv R d HR Hd) as Hinv.
  destruct (inv_codesize _ _ Hinv) as (Hcs & _ & _).
  unfold lzw_process_bit.
  destruct (truthy (eoi_flag d)).
  { intros [= <- _ <-]. split; [exact Hd | intros _; split; assumption]. }
  set (p := if truthy (Z.land byte (Z.shiftl 1 b))
            then Z.lor (pending_code d) (Z.shiftl 1 (bits_in_pending_code d))
            else pending_code d).
  assert (Hp : 0 <= p < 2 ^ (bits_in_pending_code d + 1)).
  { assert (Hpw : 2 ^ bits_in_pending_code d < 2 ^ (bits_in_pending_code d + 1)).
    { apply Z.pow_lt_mono_r; lia. }
    assert (Hpos : 0 < 2 ^ bits_in_pending_code d) by (apply Z.pow_pos_nonneg; lia).
    subst p. destruct (truthy _).
    - rewrite Z.shiftl_1_l. apply lor_lt_pow2; lia.
    - lia. }
  assert (Hstep :
    (if truthy (Z.land byte (Z.shiftl 1 b))
     then if 31 <=? bits_in_pending_code d then Undefined
          else mret (set_pending_code
                       (Z.lor (pending_code d) (Z.shiftl 1 (bits_in_pending_code d))) d)
     else mret d) = Normal (set_pending_code p d)).
  { subst p. destruct (truthy _).
    - destruct (Z.leb_spec 31 (bits_in_pending_code d)); [lia | reflexivity].
    - rewrite set_pending_code_same. reflexivity. }
  rewrite Hstep. simpl. rewrite (u32_small (bits_in_pending_code d + 1)) by lia.
  set (d2 := set_bits_in_pending_code (bits_in_pending_code d + 1) (set_pending_code p d)).
  assert (Hd2 : lzw_reachable R d2) by (apply lzw_reach_bits, Hd).
  destruct (Z.leb_spec (current_codesize d) (bits_in_pending_code d + 1)) as [Hfull|Hmore].
  - destruct (lzw_process_code rctx d2 p) as [[[ok r3] d3]| |] eqn:Hcode; simpl;
      try discriminate.
    assert (Hd3 : lzw_reachable R d3).
    { apply (lzw_reach_code R d2 rctx p ok r3 d3 Hd2); [|exact Hcode].
      simpl. replace (current_codesize d) with (bits_in_pending_code d + 1) by lia.
      exact Hp. }
    destruct (truthy ok); simpl.
    + intros [= <- _ <-]. split; [apply lzw_reach_bits, Hd3|].
      intros _. pose proof (lzw_reachable_inv R d3 HR Hd3) as Hinv3.
      destruct (inv_codesize _ _ Hinv3) as (Hcs3 & _ & _).
      split; simpl; lia.
    + intros [= <- _ <-]. split; [exact Hd3 | congruence].
  - intros [= <- _ <-]. split; [exact Hd2|].
    intros _. split; simpl; [lia | exact Hp].
Qed.

Lemma lzw_process_byte_reachable (R : Z) (n : nat) (b : Z)
    (rctx rctx' : iwgifreadcontext) (d d' : lzwdeccontext) (byte : Z) (fl : flow) :
  2 <= R <= 11 -> lzw_reachable R d -> pending_ok d ->
  lzw_process_byte n b rctx d byte = Normal (fl, rctx', d') ->
  lzw_reachable R d' /\ (fl <> Done 0 -> pending_ok d').
Proof.
  intros HR. revert b rctx d.
  induction n as [|n IH]; intros b rctx d Hd Hp; simpl.
  - intros [= <- _ <-]. split; [exact Hd | intros _; exact Hp].
  - destruct (lzw_process_bit rctx d byte b) as [[[fl1 r1] d1]| |] eqn:Hbit; simpl;
      try discriminate.
    destruct (lzw_process_bit_reachable R rctx r1 d d1 byte b fl1 HR Hd Hp Hbit)
      as [Hd1 Hp1].
    destruct fl1 as [|r].
    + apply IH; [exact Hd1 | apply Hp1; discriminate].
    + intros [= <- _ <-]. split; [exact Hd1 | exact Hp1].
Qed.

(** Whatever [lzw_process_bytes] is fed, the decoder state it leaves is a
    reachable one. *)
Lemma lzw_process_bytes_reachable (R : Z) (data : list Z)
    (rctx rctx' : iwgifreadcontext) (d d' : lzwdeccontext) (ok : Z) :
  2 <= R <= 11 -> lzw_reachable R d -> pending_ok d ->
  lzw_process_bytes rctx d data = Normal (ok, rctx', d') ->
  lzw_reachable R d' /\ (ok <> 0 -> pending_ok d').
Proof.
  intros HR. revert rctx d.
  induction data as [|byte data IH]; intros rctx d Hd Hp; cbn [lzw_process_bytes].
  - intros [= <- _ <-]. split; [exact Hd | intros _; exact Hp].
  - destruct (lzw_process_byte 8 0 rctx d byte) as [[[fl1 r1] d1]| |] eqn:Hbyte;
      cbn [mbind outcome_bind]; try discriminate.
    destruct (lzw_process_byte_reachable R 8 0 rctx r1 d d1 byte fl1 HR Hd Hp Hbyte)
      as [Hd1 Hp1].
    destruct fl1 as [|r].
    + apply IH; [exact Hd1 | apply Hp1; discriminate].
    + intros [= <- _ <-]. split; [exact Hd1|].
      intros Hr. apply Hp1. congruence.
Qed.

(** ** What recording pixels leaves alone *)

Lemma canvas_write_same (rctx : iwgifreadcontext) :
  canvas_write rctx (pixels (img rctx)) (pixels_set rctx) = rctx.
Proof. eta_rctx rctx. Qed.

Lemma canvas_write_twice (rctx : iwgifreadcontext) px ps px' ps' :
  canvas_write (canvas_write rctx px ps) px' ps' = canvas_write rctx px' ps'.
Proof. reflexivity. Qed.

Lemma poke_canvas (rctx rctx' : iwgifreadcontext) (addr v : Z) :
  poke rctx addr v = Normal rctx' ->
  exists px, rctx' = canvas_write rctx px (pixels_set rctx).
Proof.
  unfold poke. destruct (pixels (img rctx)) as [px|]; simpl; [|discriminate].
  destruct (array_set px addr (u8 v)) as [px'|]; simpl; [|discriminate].
  intros [= <-]. exists (Some px').
  rewrite <- (canvas_write_same rctx) at 1. reflexivity.
Qed.

Lemma iwgif_record_pixel_canvas (rctx rctx' : iwgifreadcontext) (coloridx offset : Z) :
  iwgif_record_pixel rctx coloridx offset = Normal rctx' ->
  exists px, rctx' = canvas_write rctx px (pixels_set rctx).
Proof.
  unfold iwgif_record_pixel.
  assert (Hid : exists px, rctx = canvas_write rctx px (pixels_set rctx)).
  { exists (pixels (img rctx)). symmetry. apply canvas_write_same. }
  destruct (usz (image_width rctx) =? 0); [discriminate|].
  destruct (_ || _); [intros [= <-]; exact Hid|].
  destruct (coloridx <? _); [|intros [= <-]; exact Hid].
  destruct (defined (array_get (entry (colortable rctx)) coloridx)) as [e| |];
    simpl; try discriminate.
  destruct (defined (row_pointers rctx)) as [rows| |]; simpl; try discriminate.
  destruct (defined (array_get rows _)) as [row| |]; simpl; try discriminate.
  destruct (poke rctx _ _) as [r1| |] eqn:H1; simpl; try discriminate.
  destruct (poke r1 _ _) as [r2| |] eqn:H2; simpl; try discriminate.
  destruct (poke r2 _ _) as [r3| |] eqn:H3; simpl; try discriminate.
  apply poke_canvas in H1 as [p1 ->]. apply poke_canvas in H2 as [p2 ->].
  apply poke_canvas in H3 as [p3 ->]. simpl.
  destruct (imgtype (img rctx)).
  - intros [= <-]. eexists. reflexivity.
  - intros [= <-]. eexists. reflexivity.
  - intros H4. apply poke_canvas in H4 as [p4 ->]. eexists. reflexivity.
Qed.

Lemma lzw_emit_code_loop_canvas (fuel : nat) (rctx rctx' : iwgifreadcontext)
    (d : lzwdeccontext) (code : Z) :
  lzw_emit_code_loop fuel rctx d code = Normal rctx' ->
  exists px, rctx' = canvas_write rctx px (pixels_set rctx).
Proof.
  revert rctx code. induction fuel as [|fuel IH]; intros rctx code; simpl;
    [discriminate|].
  destruct (ct_at d code) as [e| |]; simpl; try discriminate.
  destruct (iwgif_record_pixel rctx _ _) as [r1| |] eqn:H1; simpl; try discriminate.
  apply iwgif_record_pixel_canvas in H1 as [p1 ->].
  destruct (length_ e <? 1).
  - intros [= <-]. eexists. reflexivity.
  - intros H2. apply IH in H2 as [p2 ->]. eexists. reflexivity.
Qed.

(** [lzw_emit_code] changes the canvas, and adds the length of the run
    to [pixels_set]. *)
Lemma lzw_emit_code_canvas (rctx rctx' : iwgifreadcontext) (d : lzwdeccontext)
    (code : Z) :
  lzw_emit_code rctx d code = Normal rctx' ->
  exists px e, ct_at d code = Normal e
    /\ rctx' = canvas_write rctx px (usz (pixels_set rctx + u32 (length_ e + 1))).
Proof.
  unfold lzw_emit_code.
  destruct (lzw_emit_code_loop 4097 rctx d code) as [r1| |] eqn:H1; simpl;
    try discriminate.
  apply lzw_emit_code_loop_canvas in H1 as [p1 ->].
  destruct (ct_at d code) as [e| |]; simpl; try discriminate.
  intros [= <-]. exists p1, e. split; reflexivity.
Qed.

(** The emission reads nothing of the decoder state but the table. *)
Lemma lzw_emit_code_loop_ct (fuel : nat) (rctx : iwgifreadcontext)
    (d1 d2 : lzwdeccontext) (code : Z) :
  ct d1 = ct d2 ->
  lzw_emit_code_loop fuel rctx d1 code = lzw_emit_code_loop fuel rctx d2 code.
Proof.
  intros Hct. revert rctx code. induction fuel as [|fuel IH]; intros rctx code; simpl;
    [reflexivity|].
  unfold ct_at. rewrite Hct.
  destruct (defined (array_get (ct d2) code)) as [e| |]; simpl; try reflexivity.
  destruct (iwgif_record_pixel rctx _ _) as [r1| |]; simpl; try reflexivity.
  destruct (length_ e <? 1); [reflexivity | apply IH].
Qed.

Lemma lzw_emit_code_ct (rctx : iwgifreadcontext) (d1 d2 : lzwdeccontext) (code : Z) :
  ct d1 = ct d2 -> lzw_emit_code rctx d1 code = lzw_emit_code rctx d2 code.
Proof.
  intros Hct. unfold lzw_emit_code, ct_at.
  rewrite (lzw_emit_code_loop_ct 4097 rctx d1 d2 code Hct), Hct. reflexivity.
Qed.

Lemma lzw_start_2_reachable : lzw_reachable 2 lzw_start_2.
Proof.
  unfold lzw_start_2. destruct (lzw_init 2) as [d0| |] eqn:Hinit.
  - apply lzw_reach_init, Hinit.
  - vm_compute in Hinit. discriminate.
  - vm_compute in Hinit. discriminate.
Qed.

Lemma pending_ok_lzw_start_2 : pending_ok lzw_start_2.
Proof. vm_compute. repeat split; congruence. Qed.

(** The states the bytes lead to are reachable ones. *)
Lemma lzw_after_bytes_reachable (data : list Z) : lzw_reachable 2 (lzw_after_bytes data).
Proof.
  unfold lzw_after_bytes.
  destruct (lzw_process_bytes (rctx_2x2 []) lzw_start_2 data) as [[[ok r] d]| |] eqn:H;
    try exact lzw_start_2_reachable.
  apply (lzw_process_bytes_reachable 2 data _ _ _ _ _ ltac:(lia)
           lzw_start_2_reachable pending_ok_lzw_start_2 H).
Qed.

(** ** Initialization and the clear code *)

(** C7. For a root code size [R] in [2,11], initialization
    ([lzw_init] then [lzw_clear], as [iwgif_read_image] does it) gives
    clear code [2^R], end-of-information code [2^R+1] and code size
    [R+1]. In any reachable state the clear code returns success with
    [ct_used] reset to [2^R+2], the code size to [R+1] and the previous
    code to 0. Whatever bits are gathered next, the code that follows
    inserts nothing in the dictionary, and if it is not a control code it
    is emitted directly and becomes the previous code. *)
Theorem lzw_init_and_clear_code (R : Z) (d : lzwdeccontext) (rctx : iwgifreadcontext) :
  2 <= R <= 11 ->
  lzw_reachable R d ->
  (exists d0, lzw_init R = Normal d0
     /\ clear_code d0 = 2 ^ R /\ eoi_code d0 = 2 ^ R + 1
     /\ current_codesize (lzw_clear d0) = R + 1)
  /\ clear_code d = 2 ^ R /\ eoi_code d = 2 ^ R + 1
  /\ exists d',
       lzw_process_code rctx d (2 ^ R) = Normal (1, rctx, d')
       /\ ct_used d' = 2 ^ R + 2 /\ current_codesize d' = R + 1 /\ oldcode d' = 0
       /\ forall (p n : Z) (rctx2 : iwgifreadcontext) (code : Z),
            let d2 := set_bits_in_pending_code n (set_pending_code p d') in
            (forall ok rctx3 d3,
               lzw_process_code rctx2 d2 code = Normal (ok, rctx3, d3) ->
               ct d3 = ct d2 /\ ct_used d3 = ct_used d2)
            /\ (code <> 2 ^ R -> code <> 2 ^ R + 1 ->
                lzw_process_code rctx2 d2 code =
                (rctx3 ← lzw_emit_code rctx2 d2 code;
                 mret (1, rctx3, set_oldcode code (set_ncodes_since_clear 1 d2)))).
Proof.
  intros HR Hd. pose proof (lzw_reachable_inv R d HR Hd) as Hinv.
  pose proof (pow2_root_bounds R HR) as Hp.
  destruct Hinv as [H1 H2 H3 H4 H5 H6 H7 H8 H9].
  split.
  { destruct (lzw_init_ok R HR) as (d0 & Hinit & Hr & Hn & Hc & He & _).
    exists d0. repeat split; try assumption.
    simpl. rewrite Hr, u32_small; lia. }
  split; [exact H3|]. split; [exact H4|].
  exists (lzw_clear d).
  assert (Hcall : lzw_process_code rctx d (2 ^ R) = Normal (1, rctx, lzw_clear d)).
  { unfold lzw_process_code. rewrite H4, H3.
    destruct (Z.eqb_spec (2 ^ R) (2 ^ R + 1)); [lia|].
    rewrite Z.eqb_refl. reflexivity. }
  split; [exact Hcall|].
  split; [simpl; rewrite H2, u32_small; lia|].
  split; [simpl; rewrite H1, u32_small; lia|].
  split; [reflexivity|].
  intros p n rctx2 code d2.
  assert (Hfirst :
    code <> 2 ^ R -> code <> 2 ^ R + 1 ->
    lzw_process_code rctx2 d2 code =
    (rctx3 ← lzw_emit_code rctx2 d2 code;
     mret (1, rctx3, set_oldcode code (set_ncodes_since_clear 1 d2)))).
  { intros Hc He. unfold lzw_process_code. subst d2. simpl.
    rewrite H4, H3.
    destruct (Z.eqb_spec code (2 ^ R + 1)); [lia|].
    destruct (Z.eqb_spec code (2 ^ R)); [lia|].
    simpl.
    rewrite (lzw_emit_code_ct rctx2 _
               (set_bits_in_pending_code n (set_pending_code p (lzw_clear d))) code)
      by reflexivity.
    reflexivity. }
  split; [|exact Hfirst].
  intros ok rctx3 d3.
  destruct (Z.eq_dec code (2 ^ R + 1)) as [->|He].
  { unfold lzw_process_code. subst d2. simpl. rewrite H4, Z.eqb_refl.
    intros [= _ _ <-]. split; reflexivity. }
  destruct (Z.eq_dec code (2 ^ R)) as [->|Hc].
  { unfold lzw_process_code. subst d2. simpl. rewrite H4, H3.
    destruct (Z.eqb_spec (2 ^ R) (2 ^ R + 1)); [lia|].
    rewrite Z.eqb_refl. intros [= _ _ <-]. split; reflexivity. }
  rewrite (Hfirst Hc He).
  destruct (lzw_emit_code rctx2 d2 code); simpl; try discriminate.
  intros [= _ _ <-]. split; reflexivity.
Qed.

Lemma lzw_init_and_clear_code_witness :
  2 <= 2 <= 11 /\ lzw_reachable 2 lzw_start_2
  /\ clear_code lzw_start_2 = 2 ^ 2
  /\ exists d', lzw_process_code (rctx_2x2 []) lzw_start_2 (2 ^ 2) = Normal (1, rctx_2x2 [], d')
       /\ ct_used d' = 2 ^ 2 + 2 /\ current_codesize d' = 2 + 1.
Proof.
  split; [lia|]. split; [exact lzw_start_2_reachable|].
  destruct (lzw_init_and_clear_code 2 lzw_start_2 (rctx_2x2 []))
    as (_ & Hc & _ & d' & Hcall & Hu & Hs & _).
  - lia.
  - exact lzw_start_2_reachable.
  - split; [exact Hc|]. exists d'. split; [exact Hcall|]. split; assumption.
Defined.

(** ** Growth of the code size, and the full dictionary *)

Lemma array_get_Some_range {A : Type} (l : list A) (i : Z) (x : A) :
  array_get l i = Some x -> 0 <= i < Z.of_nat (length l).
Proof.
  unfold array_get.
  destruct (Z.leb_spec 0 i); [|discriminate].
  destruct (Z.ltb_spec i (Z.of_nat (length l))); [|discriminate]. lia.
Qed.

(** Every way [lzw_add_to_dict] returns. *)
Lemma lzw_add_to_dict_result (R : Z) (d d' : lzwdeccontext) (oc val pos : Z) :
  lzw_inv R d ->
  lzw_add_to_dict d oc val = Normal (pos, d') ->
  (ct_used d = 4096 /\ pos = -1 /\ d' = d)
  \/ (ct_used d < 4096 /\ pos = ct_used d /\
      exists old tbl,
        array_get (ct d) oc = Some old
        /\ array_set (ct d) (ct_used d)
             (Build_lzw_tableentry oc (u32 (length_ old + 1)) val (firstchar old)) = Some tbl
        /\ d' = (if last_code_of_size (ct_used d)
                 then set_current_codesize (current_codesize d + 1)
                 else fun d => d)
                  (set_ct tbl (set_ct_used (ct_used d + 1) d))).
Proof.
  intros Hinv Hadd.
  destruct (Z.leb_spec 4096 (ct_used d)) as [Hfull|Hfree].
  - left. unfold lzw_add_to_dict in Hadd.
    destruct (Z.leb_spec 4096 (ct_used d)); [|lia].
    injection Hadd as <- <-. destruct Hinv. repeat split; lia.
  - right. destruct (array_get (ct d) oc) as [old|] eqn:Hold.
    + pose proof (array_get_Some_range _ _ _ Hold) as Hoc.
      pose proof (inv_ct _ _ Hinv) as Hlen.
      assert (Hoc' : 0 <= oc < 4096) by lia.
      destruct (lzw_add_to_dict_spec R d oc val Hinv Hoc')
        as [[Hfull _] | (_ & old' & tbl & Hold' & Htbl & Heq)]; [lia|].
      rewrite Hold in Hold'. injection Hold' as <-.
      rewrite Heq in Hadd. injection Hadd as <- <-.
      split; [exact Hfree|]. split; [reflexivity|].
      exists old, tbl. repeat split; assumption.
    + unfold lzw_add_to_dict, ct_at in Hadd.
      destruct (Z.leb_spec 4096 (ct_used d)); [lia|].
      simpl in Hadd. rewrite Hold in Hadd. discriminate.
Qed.

Lemma codesize_ok_log2 (cs u : Z) :
  codesize_ok cs u -> cs = Z.min 12 (Z.log2 u + 1).
Proof.
  intros (Hcs & Hlo & [Hhi | [-> ->]]).
  - assert (Hl : Z.log2 u = cs - 1).
    { apply Z.log2_unique; [lia|]. replace (Z.succ (cs - 1)) with cs by lia. lia. }
    lia.
  - reflexivity.
Qed.

(** The counts of used entries at which the code size grows. *)
Lemma last_code_of_size_count (u : Z) :
  last_code_of_size u = true <-> In (u + 1) [8; 16; 32; 64; 128; 256; 512; 1024; 2048].
Proof. rewrite last_code_of_size_true. simpl. lia. Qed.

(** C8. In a reachable state the code size is determined by the number of
    used entries. [lzw_add_to_dict] returns for every previous code below
    4096: with fewer than 4096 entries used it appends at [ct_used] and
    brings the count up by one, and the code size goes up by one bit when
    the new count is 8, 16, 32, 64, 128, 256, 512, 1024 or 2048 and stays
    at every other count; with 4096 entries used it adds nothing, changes
    nothing and returns -1. A code that is neither a control code nor the
    first one after a reset, once decoded, leaves the count one higher,
    4096 at most, and the code size grown at those counts only. With 4096
    entries used the code size is 12, and a code other than the control
    codes is decoded by emitting its run, the table staying as it is. *)
Theorem lzw_codesize_growth (R : Z) (d : lzwdeccontext) (rctx : iwgifreadcontext)
    (oc val code : Z) :
  2 <= R <= 11 ->
  lzw_reachable R d ->
  current_codesize d = Z.min 12 (Z.log2 (ct_used d) + 1)
  /\ (0 <= oc < 4096 ->
      exists pos d',
        lzw_add_to_dict d oc val = Normal (pos, d')
        /\ ct_used d' = Z.min 4096 (ct_used d + 1)
        /\ current_codesize d' = Z.min 12 (Z.log2 (ct_used d') + 1))
  /\ (forall pos d',
        lzw_add_to_dict d oc val = Normal (pos, d') ->
        (ct_used d < 4096 ->
           pos = ct_used d /\ ct_used d' = ct_used d + 1
           /\ (In (ct_used d') [8; 16; 32; 64; 128; 256; 512; 1024; 2048] ->
               current_codesize d' = current_codesize d + 1)
           /\ (~ In (ct_used d') [8; 16; 32; 64; 128; 256; 512; 1024; 2048] ->
               current_codesize d' = current_codesize d))
        /\ (ct_used d = 4096 -> pos = -1 /\ d' = d))
  /\ (forall ok rctx' d',
        0 <= code < 4096 -> code <> eoi_code d -> code <> clear_code d ->
        ncodes_since_clear d <> 0 ->
        lzw_process_code rctx d code = Normal (ok, rctx', d') -> ok <> 0 ->
        ct_used d' = Z.min 4096 (ct_used d + 1)
        /\ current_codesize d' =
           (if last_code_of_size (ct_used d)
            then current_codesize d + 1 else current_codesize d))
  /\ (ct_used d = 4096 ->
        current_codesize d = 12
        /\ (0 <= code < 4096 -> code <> eoi_code d -> code <> clear_code d ->
            lzw_process_code rctx d code =
            (rctx' ← lzw_emit_code rctx d code;
             mret (1, rctx',
                   set_oldcode code
                     (set_ncodes_since_clear (ncodes_since_clear d + 1) d))))).
Proof.
  intros HR Hd. pose proof (lzw_reachable_inv R d HR Hd) as Hinv.
  split; [apply codesize_ok_log2, (inv_codesize _ _ Hinv)|].
  split.
  { intros Hoc.
    destruct (lzw_add_to_dict_spec R d oc val Hinv Hoc)
      as [[Hfull Heq] | (Hfree & old & tbl & Hold & Htbl & Heq)].
    - exists (-1), d. split; [exact Heq|]. split; [lia|].
      apply codesize_ok_log2, (inv_codesize _ _ Hinv).
    - eexists _, _. split; [exact Heq|].
      pose proof (lzw_add_to_dict_inv R d _ oc val _ Hinv Hoc Heq) as [Hinv' _].
      split; [|apply codesize_ok_log2, (inv_codesize _ _ Hinv')].
      destruct (last_code_of_size (ct_used d)); simpl; lia. }
  split.
  { intros pos d' Hadd.
    destruct (lzw_add_to_dict_result R d d' oc val pos Hinv Hadd)
      as [(Hfull & -> & ->) | (Hfree & -> & old & tbl & _ & _ & ->)].
    + split; [lia | tauto].
    + split; [|lia]. intros _. split; [reflexivity|].
      destruct (last_code_of_size (ct_used d)) eqn:Hb; simpl.
      * repeat split; try reflexivity.
        intros Hn. exfalso. apply Hn. apply last_code_of_size_count. exact Hb.
      * repeat split; try reflexivity.
        intros Hin. apply last_code_of_size_count in Hin. congruence. }
  split.
  { intros ok rctx' d' Hcode He Hc Hn. unfold lzw_process_code.
    destruct (Z.eqb_spec code (eoi_code d)); [contradiction|].
    destruct (Z.eqb_spec code (clear_code d)); [contradiction|].
    set (d1 := set_ncodes_since_clear (ncodes_since_clear d + 1) d).
    assert (Hinv1 : lzw_inv R d1).
    { destruct Hinv. split; simpl; try assumption; lia. }
    assert (Hoc : 0 <= int_of_unsigned (oldcode d1) < 4096).
    { simpl. rewrite int_of_unsigned_small; destruct Hinv; lia. }
    destruct (Z.eqb_spec (ncodes_since_clear d1) 1) as [H1|_]; [simpl in H1; lia|].
    assert (Hres : forall v pos d2,
              lzw_add_to_dict d1 (int_of_unsigned (oldcode d1)) v = Normal (pos, d2) ->
              ct_used d2 = Z.min 4096 (ct_used d + 1)
              /\ current_codesize d2 =
                 (if last_code_of_size (ct_used d)
                  then current_codesize d + 1 else current_codesize d)
              /\ (ct_used d < 4096 -> pos = ct_used d)).
    { intros v pos d2 Hadd.
      destruct (lzw_add_to_dict_result R d1 d2 _ v pos Hinv1 Hadd)
        as [(Hfull & -> & ->) | (Hfree & -> & old & tbl & _ & _ & ->)]; simpl in *.
      - split; [lia|]. split; [|lia].
        destruct (last_code_of_size (ct_used d)) eqn:Hb; [|reflexivity].
        apply last_code_of_size_true in Hb. lia.
      - split; [destruct (last_code_of_size (ct_used d)); simpl; lia|].
        split; [|reflexivity].
        destruct (last_code_of_size (ct_used d)); reflexivity. }
    destruct (code <? ct_used d1).
    { destruct (lzw_emit_code rctx d1 code); simpl; try discriminate.
      destruct (ct_at d1 code) as [e| |]; simpl; try discriminate.
      destruct (lzw_add_to_dict d1 _ _) as [[pos d2]| |] eqn:Hadd; simpl; try discriminate.
      intros [= _ _ <-] _. apply Hres in Hadd as (Hu & Hs & _). simpl. tauto. }
    destruct (ct_used d1 <=? oldcode d1).
    { intros [= <- _ _] Hok. contradiction. }
    destruct (ct_at d1 (oldcode d1)) as [e| |]; simpl; try discriminate.
    destruct (lzw_add_to_dict d1 _ _) as [[pos d2]| |] eqn:Hadd; simpl; try discriminate.
    destruct (if 0 <=? pos then _ else _); simpl; try discriminate.
    intros [= _ _ <-] _. apply Hres in Hadd as (Hu & Hs & _). simpl. tauto. }
  intros Hfull. split.
  { destruct (inv_codesize _ _ Hinv) as (Hcs & Hlo & [Hhi | [Hc _]]); [|exact Hc].
    pose proof (codesize_ok_pow _ _ (inv_codesize _ _ Hinv)). lia. }
  intros Hcode He Hc. unfold lzw_process_code.
  destruct (Z.eqb_spec code (eoi_code d)); [contradiction|].
  destruct (Z.eqb_spec code (clear_code d)); [contradiction|].
  set (d1 := set_ncodes_since_clear (ncodes_since_clear d + 1) d).
  rewrite (lzw_emit_code_ct rctx d d1 code) by reflexivity.
  destruct (ncodes_since_clear d1 =? 1); [reflexivity|].
  replace (ct_used d1) with 4096 by (symmetry; exact Hfull).
  destruct (Z.ltb_spec code 4096); [|lia].
  destruct (lzw_emit_code rctx d1 code) as [r1| |]; simpl; try reflexivity.
  destruct (array_get_in_range (ct d) code) as [e He'];
    [rewrite (inv_ct _ _ Hinv); lia|].
  unfold ct_at. simpl. rewrite He'. simpl.
  unfold lzw_add_to_dict. simpl.
  destruct (Z.leb_spec 4096 (ct_used d)); [|lia]. reflexivity.
Qed.

Lemma lzw_codesize_growth_witness :
  (lzw_reachable 2 lzw_seven_used
   /\ ct_used lzw_seven_used = 7 /\ current_codesize lzw_seven_used = 3
   /\ exists pos d',
        lzw_add_to_dict lzw_seven_used 0 0 = Normal (pos, d')
        /\ pos = 7 /\ ct_used d' = 8 /\ current_codesize d' = 4
        /\ exists rctx' d2,
             lzw_process_code (rctx_2x2 []) lzw_seven_used 0 = Normal (1, rctx', d2)
             /\ ct_used d2 = 8 /\ current_codesize d2 = 4)
  /\ (lzw_reachable 2 lzw_table_full
      /\ ct_used lzw_table_full = 4096 /\ current_codesize lzw_table_full = 12
      /\ lzw_add_to_dict lzw_table_full 0 0 = Normal (-1, lzw_table_full)
      /\ lzw_process_code (rctx_2x2 []) lzw_table_full 0 =
         (rctx' ← lzw_emit_code (rctx_2x2 []) lzw_table_full 0;
          mret (1, rctx',
                set_oldcode 0
                  (set_ncodes_since_clear (ncodes_since_clear lzw_table_full + 1)
                     lzw_table_full)))
      /\ exists rctx', lzw_emit_code (rctx_2x2 []) lzw_table_full 0 = Normal rctx').
Proof.
  split.
  - pose proof (lzw_after_bytes_reachable [0]) as Hd.
    assert (Hu : ct_used lzw_seven_used = 7) by (vm_compute; reflexivity).
    destruct (lzw_codesize_growth 2 lzw_seven_used (rctx_2x2 []) 0 0 0 ltac:(lia) Hd)
      as (Hcs & Hex & Hall & Hproc & _).
    split; [exact Hd|]. split; [exact Hu|].
    split; [rewrite Hcs, Hu; reflexivity|].
    destruct (Hex ltac:(lia)) as (pos & d' & Hadd & Hu' & Hcs').
    exists pos, d'. split; [exact Hadd|].
    destruct (Hall pos d' Hadd) as [Hfree _].
    destruct Hfree as (Hpos & _); [rewrite Hu; lia|].
    split; [rewrite Hpos; exact Hu|].
    rewrite Hu in Hu'. change (Z.min 4096 (7 + 1)) with 8 in Hu'.
    split; [exact Hu'|]. split; [rewrite Hcs', Hu'; reflexivity|].
    assert (Hrun : exists rctx' d2,
              lzw_process_code (rctx_2x2 []) lzw_seven_used 0 = Normal (1, rctx', d2))
      by (vm_compute; eexists _, _; reflexivity).
    destruct Hrun as (rctx' & d2 & Hrun). exists rctx', d2. split; [exact Hrun|].
    destruct (Hproc 1 rctx' d2) as [Hu2 Hcs2];
      [lia | vm_compute; discriminate | vm_compute; discriminate
      | vm_compute; discriminate | exact Hrun | discriminate |].
    rewrite Hu in Hu2, Hcs2. rewrite Hcs, Hu in Hcs2.
    split; [exact Hu2 | exact Hcs2].
  - pose proof (lzw_after_bytes_reachable (replicate (Z.to_nat 6144) 0)) as Hd.
    assert (Hu : ct_used lzw_table_full = 4096) by (vm_compute; reflexivity).
    destruct (lzw_codesize_growth 2 lzw_table_full (rctx_2x2 []) 0 0 0 ltac:(lia) Hd)
      as (_ & Hex & Hall & _ & Hfull).
    destruct (Hfull Hu) as [Hcs Hcode].
    split; [exact Hd|]. split; [exact Hu|]. split; [exact Hcs|].
    split.
    { destruct (Hex ltac:(lia)) as (pos & d' & Hadd & _).
      destruct (Hall pos d' Hadd) as [_ Hsame].
      destruct (Hsame Hu) as [-> ->]. exact Hadd. }
    split.
    { apply Hcode; [lia | vm_compute; discriminate | vm_compute; discriminate]. }
    vm_compute. eexists. reflexivity.
Defined.

(** ** Codes that are not in the table *)

Lemma lzw_emit_code_errors (rctx rctx' : iwgifreadcontext) (d : lzwdeccontext)
    (code : Z) :
  lzw_emit_code rctx d code = Normal rctx' -> ctx rctx' = ctx rctx.
Proof.
  intros H. apply lzw_emit_code_canvas in H as (px & e & _ & ->). reflexivity.
Qed.

(** C6, as amended. Let a code be read that is not the first one after a
    reset and is not in the table ([ct_used] or more). If the previous
    code is not in the table either, the call fails with the decode
    error. Otherwise the entry with parent = previous code, value =
    firstchar(previous code) and length = length(previous code)+1 (as an
    [unsigned int]) is appended at position [ct_used], the run of that
    new entry is emitted, and when the emission returns the previous code
    becomes the code just read. No call of [lzw_process_code] raises the
    decode error in any other situation. *)
Theorem lzw_code_not_in_table (R : Z) (d : lzwdeccontext) (rctx : iwgifreadcontext)
    (code : Z) :
  2 <= R <= 11 ->
  lzw_reachable R d ->
  0 <= code < 4096 ->
  (ncodes_since_clear d <> 0 -> ct_used d <= code ->
     (ct_used d <= oldcode d ->
        lzw_process_code rctx d code =
        Normal (0, iw_seterror iws_gif_decode_error rctx,
                set_ncodes_since_clear (ncodes_since_clear d + 1) d))
     /\ (oldcode d < ct_used d ->
         exists old tbl,
           array_get (ct d) (oldcode d) = Some old
           /\ array_set (ct d) (ct_used d)
                (Build_lzw_tableentry (oldcode d) (u32 (length_ old + 1))
                                      (firstchar old) (firstchar old)) = Some tbl
           /\ let d1 :=
                (if last_code_of_size (ct_used d)
                 then set_current_codesize (current_codesize d + 1)
                 else fun d => d)
                  (set_ct tbl
                     (set_ct_used (ct_used d + 1)
                        (set_ncodes_since_clear (ncodes_since_clear d + 1) d))) in
              lzw_process_code rctx d code =
              (rctx' ← lzw_emit_code rctx d1 (ct_used d);
               mret (1, rctx', set_oldcode code d1))))
  /\ (forall ok rctx' d',
        lzw_process_code rctx d code = Normal (ok, rctx', d') ->
        (ok = 0
         /\ errors (ctx rctx') = errors (ctx rctx) ++ [iws_gif_decode_error]
         /\ code <> eoi_code d /\ code <> clear_code d
         /\ ncodes_since_clear d <> 0
         /\ ct_used d <= code /\ ct_used d <= oldcode d)
        \/ (ok = 1 /\ errors (ctx rctx') = errors (ctx rctx))).
Proof.
  intros HR Hd Hcode. pose proof (lzw_reachable_inv R d HR Hd) as Hinv.
  pose proof (pow2_root_bounds R HR) as Hp.
  set (d0 := set_ncodes_since_clear (ncodes_since_clear d + 1) d).
  assert (Hinv0 : lzw_inv R d0).
  { destruct Hinv. split; simpl; try assumption; lia. }
  assert (Hoc : int_of_unsigned (oldcode d) = oldcode d).
  { apply int_of_unsigned_small. destruct Hinv. lia. }
  split.
  - intros Hn Hnr.
    assert (Hunf : lzw_process_code rctx d code =
      if ct_used d <=? oldcode d
      then mret (0, iw_seterror iws_gif_decode_error rctx, d0)
      else
        e ← ct_at d0 (oldcode d0);
        '(newpos, d1) ← lzw_add_to_dict d0 (int_of_unsigned (oldcode d0)) (firstchar e);
        rctx1 ← (if 0 <=? newpos then lzw_emit_code rctx d1 newpos else mret rctx);
        mret (1, rctx1, set_oldcode code d1)).
    { unfold lzw_process_code. fold d0.
      destruct (Z.eqb_spec code (eoi_code d)) as [He|_];
        [destruct Hinv; lia|].
      destruct (Z.eqb_spec code (clear_code d)) as [Hc|_];
        [destruct Hinv; lia|].
      destruct (Z.eqb_spec (ncodes_since_clear d0) 1) as [H1|_];
        [simpl in H1; lia|].
      destruct (Z.ltb_spec code (ct_used d0)) as [Hlt|_]; [simpl in Hlt; lia|].
      reflexivity. }
    split.
    + intros Hbad. rewrite Hunf.
      destruct (Z.leb_spec (ct_used d) (oldcode d)); [reflexivity | lia].
    + intros Hgood. rewrite Hunf.
      destruct (Z.leb_spec (ct_used d) (oldcode d)); [lia|].
      assert (Hfree : ct_used d0 < 4096) by (simpl; lia).
      assert (Hoc0 : 0 <= oldcode d < 4096) by (destruct Hinv; lia).
      destruct (array_get_in_range (ct d) (oldcode d)) as [old Hold];
        [rewrite (inv_ct _ _ Hinv); lia|].
      destruct (lzw_add_to_dict_spec R d0 (oldcode d) (firstchar old) Hinv0 Hoc0)
        as [[Hfull _] | (_ & old' & tbl & Hold' & Htbl & Heq)]; [lia|].
      simpl in Hold'. rewrite Hold in Hold'. injection Hold' as <-.
      exists old, tbl. split; [exact Hold|]. split; [exact Htbl|].
      unfold ct_at. simpl. rewrite Hold. simpl. rewrite Hoc, Heq. simpl.
      destruct (Z.leb_spec 0 (ct_used d)); [reflexivity|].
      destruct Hinv. lia.
  - intros ok rctx' d'. unfold lzw_process_code. fold d0.
    destruct (Z.eqb_spec code (eoi_code d)) as [He|He].
    { intros [= <- <- _]. right. split; reflexivity. }
    destruct (Z.eqb_spec code (clear_code d)) as [Hc|Hc].
    { intros [= <- <- _]. right. split; reflexivity. }
    destruct (Z.eqb_spec (ncodes_since_clear d0) 1) as [H1|H1].
    { destruct (lzw_emit_code rctx d0 code) as [r1| |] eqn:Hem; simpl; try discriminate.
      intros [= <- <- _]. right. split; [reflexivity|].
      rewrite (lzw_emit_code_errors _ _ _ _ Hem). reflexivity. }
    destruct (Z.ltb_spec code (ct_used d0)) as [Hlt|Hge].
    { destruct (lzw_emit_code rctx d0 code) as [r1| |] eqn:Hem; simpl; try discriminate.
      destruct (ct_at d0 code) as [e| |]; simpl; try discriminate.
      destruct (lzw_add_to_dict d0 _ _) as [[pos d2]| |]; simpl; try discriminate.
      intros [= <- <- _]. right. split; [reflexivity|].
      rewrite (lzw_emit_code_errors _ _ _ _ Hem). reflexivity. }
    destruct (Z.leb_spec (ct_used d0) (oldcode d0)) as [Hbad|Hgood].
    { intros [= <- <- _]. left. simpl in *.
      repeat split; try assumption; lia. }
    destruct (ct_at d0 (oldcode d0)) as [e| |]; simpl; try discriminate.
    destruct (lzw_add_to_dict d0 _ _) as [[pos d2]| |]; simpl; try discriminate.
    destruct (0 <=? pos).
    + destruct (lzw_emit_code rctx d2 pos) as [r1| |] eqn:Hem; simpl; try discriminate.
      intros [= <- <- _]. right. split; [reflexivity|].
      rewrite (lzw_emit_code_errors _ _ _ _ Hem). reflexivity.
    + simpl. intros [= <- <- _]. right. split; reflexivity.
Qed.

Lemma lzw_after_first_code_reachable (rctx : iwgifreadcontext) :
  lzw_reachable 2 (lzw_after_first_code rctx).
Proof.
  unfold lzw_after_first_code.
  destruct (lzw_process_code rctx lzw_start_2 0) as [[[ok r] d]| |] eqn:Hcode;
    try exact lzw_start_2_reachable.
  apply (lzw_reach_code 2 lzw_start_2 rctx 0 ok r d lzw_start_2_reachable);
    [|exact Hcode].
  vm_compute. split; [discriminate | reflexivity].
Qed.

Lemma lzw_code_not_in_table_witness :
  2 <= 2 <= 11 /\ lzw_reachable 2 (lzw_after_first_code (rctx_2x2 []))
  /\ 0 <= 6 < 4096
  /\ exists ok rctx' d',
       lzw_process_code (rctx_2x2 []) (lzw_after_first_code (rctx_2x2 [])) 6
       = Normal (ok, rctx', d')
       /\ ok = 1 /\ errors (ctx rctx') = errors (ctx (rctx_2x2 [])).
Proof.
  split; [lia|]. split; [apply lzw_after_first_code_reachable|]. split; [lia|].
  destruct (lzw_process_code (rctx_2x2 []) (lzw_after_first_code (rctx_2x2 [])) 6)
    as [[[ok r] d']| |] eqn:Hcode.
  - exists ok, r, d'. split; [reflexivity|].
    destruct (lzw_code_not_in_table 2 (lzw_after_first_code (rctx_2x2 []))
                (rctx_2x2 []) 6) as [_ Hother].
    + lia.
    + apply lzw_after_first_code_reachable.
    + lia.
    + destruct (Hother ok r d' Hcode) as [(-> & _) | H]; [|exact H].
      vm_compute in Hcode. discriminate.
  - vm_compute in Hcode. discriminate.
  - vm_compute in Hcode. discriminate.
Defined.

(** C6 as the specification words it, for every code that is not in the
    table: the first code after a reset is emitted as it is, whether or
    not it is in the table, and nothing is appended. Here the first code
    is 7 with 6 entries used and previous code 0. *)
Lemma lzw_first_code_not_in_table_no_append :
  ~ (forall (R : Z) (d : lzwdeccontext) (rctx : iwgifreadcontext) (code : Z)
            (ok : Z) (rctx' : iwgifreadcontext) (d' : lzwdeccontext),
       2 <= R <= 11 -> lzw_reachable R d ->
       0 <= code < 2 ^ current_codesize d ->
       ct_used d <= code -> oldcode d < ct_used d ->
       lzw_process_code rctx d code = Normal (ok, rctx', d') ->
       ct_used d' = ct_used d + 1).
Proof.
  intros H.
  destruct (lzw_process_code (rctx_2x2 []) lzw_start_2 7) as [[[ok r] d']| |] eqn:Hcode.
  - specialize (H 2 lzw_start_2 (rctx_2x2 []) 7 ok r d').
    assert (Hu : ct_used d' = 6).
    { vm_compute in Hcode. injection Hcode as _ _ <-. reflexivity. }
    rewrite Hu in H.
    assert (H6 : 6 = ct_used lzw_start_2 + 1).
    { apply H.
      - lia.
      - exact lzw_start_2_reachable.
      - vm_compute. split; [discriminate | reflexivity].
      - vm_compute. discriminate.
      - vm_compute. reflexivity.
      - exact Hcode. }
    vm_compute in H6. discriminate.
  - vm_compute in Hcode. discriminate.
  - vm_compute in Hcode. discriminate.
Qed.

(** ** What reading and decoding leave alone *)

Lemma frame_write_same (rctx : iwgifreadcontext) :
  frame_write rctx (iodescr rctx) (rbuf rctx) (ctx rctx) (pixels (img rctx))
    (pixels_set rctx) = rctx.
Proof. eta_rctx rctx. Qed.

Lemma decoding_frame_refl (r : iwgifreadcontext) : decoding_frame r r.
Proof. eexists _, _, _, _, _. symmetry. apply frame_write_same. Qed.

Lemma decoding_frame_trans (r1 r2 r3 : iwgifreadcontext) :
  decoding_frame r1 r2 -> decoding_frame r2 r3 -> decoding_frame r1 r3.
Proof.
  intros (io & rb & c & px & ps & ->) (io' & rb' & c' & px' & ps' & ->).
  exists io', rb', c', px', ps'. reflexivity.
Qed.

Lemma lzw_frame_decoding (r r' : iwgifreadcontext) :
  lzw_frame r r' -> decoding_frame r r'.
Proof. intros (c & px & ps & ->). eexists _, _, _, _, _. reflexivity. Qed.

Lemma lzw_frame_refl (r : iwgifreadcontext) : lzw_frame r r.
Proof. eexists _, _, _. symmetry. apply frame_write_same. Qed.

Lemma lzw_frame_trans (r1 r2 r3 : iwgifreadcontext) :
  lzw_frame r1 r2 -> lzw_frame r2 r3 -> lzw_frame r1 r3.
Proof.
  intros (c & px & ps & ->) (c' & px' & ps' & ->).
  exists c', px', ps'. reflexivity.
Qed.

Lemma lzw_frame_canvas (r : iwgifreadcontext) px ps :
  lzw_frame r (canvas_write r px ps).
Proof.
  exists (ctx r), px, ps.
  rewrite <- (frame_write_same r) at 1. reflexivity.
Qed.

Lemma lzw_frame_seterror (r : iwgifreadcontext) (n : iwgif_string) :
  lzw_frame r (iw_seterror n r).
Proof.
  exists (set_errors (errors (ctx r) ++ [n]) (ctx r)), (pixels (img r)), (pixels_set r).
  rewrite <- (frame_write_same r) at 1. reflexivity.
Qed.

Lemma decoding_frame_seterror (r : iwgifreadcontext) (n : iwgif_string) :
  decoding_frame r (iw_seterror n r).
Proof. apply lzw_frame_decoding, lzw_frame_seterror. Qed.

Lemma decoding_frame_source (r : iwgifreadcontext) (io rb : list Z) :
  decoding_frame r (set_iodescr io (set_rbuf rb r)).
Proof.
  exists io, rb, (ctx r), (pixels (img r)), (pixels_set r).
  eta_rctx r.
Qed.

Lemma iwgif_read_frame (r r' : iwgifreadcontext) (n ok : Z) :
  iwgif_read r n = (ok, r') -> decoding_frame r r'.
Proof.
  unfold iwgif_read. intros H.
  assert (Hr : r' = set_iodescr (drop (Z.to_nat n) (iodescr r))
                      (set_rbuf (take (Z.to_nat n) (iodescr r)
                                   ++ drop (length (take (Z.to_nat n) (iodescr r))) (rbuf r)) r)).
  { destruct (_ =? _); injection H as _ <-; reflexivity. }
  rewrite Hr. apply decoding_frame_source.
Qed.

Lemma lzw_emit_code_frame (r r' : iwgifreadcontext) (d : lzwdeccontext) (code : Z) :
  lzw_emit_code r d code = Normal r' -> lzw_frame r r'.
Proof.
  intros H. apply lzw_emit_code_canvas in H as (px & e & _ & ->).
  apply lzw_frame_canvas.
Qed.

Lemma lzw_process_code_frame (r r' : iwgifreadcontext) (d d' : lzwdeccontext)
    (code ok : Z) :
  lzw_process_code r d code = Normal (ok, r', d') -> lzw_frame r r'.
Proof.
  unfold lzw_process_code.
  destruct (code =? eoi_code d); [intros [= _ <- _]; apply lzw_frame_refl|].
  destruct (code =? clear_code d); [intros [= _ <- _]; apply lzw_frame_refl|].
  set (d1 := set_ncodes_since_clear _ d).
  destruct (ncodes_since_clear d1 =? 1).
  { destruct (lzw_emit_code r d1 code) as [r1| |] eqn:Hem; simpl; try discriminate.
    intros [= _ <- _]. exact (lzw_emit_code_frame _ _ _ _ Hem). }
  destruct (code <? ct_used d1).
  { destruct (lzw_emit_code r d1 code) as [r1| |] eqn:Hem; simpl; try discriminate.
    destruct (ct_at d1 code) as [e| |]; simpl; try discriminate.
    destruct (lzw_add_to_dict d1 _ _) as [[pos d2]| |]; simpl; try discriminate.
    intros [= _ <- _]. exact (lzw_emit_code_frame _ _ _ _ Hem). }
  destruct (ct_used d1 <=? oldcode d1).
  { intros [= _ <- _]. apply lzw_frame_seterror. }
  destruct (ct_at d1 (oldcode d1)) as [e| |]; simpl; try discriminate.
  destruct (lzw_add_to_dict d1 _ _) as [[pos d2]| |]; simpl; try discriminate.
  destruct (0 <=? pos).
  - destruct (lzw_emit_code r d2 pos) as [r1| |] eqn:Hem; simpl; try discriminate.
    intros [= _ <- _]. exact (lzw_emit_code_frame _ _ _ _ Hem).
  - simpl. intros [= _ <- _]. apply lzw_frame_refl.
Qed.

Lemma lzw_process_bit_frame (r r' : iwgifreadcontext) (d d' : lzwdeccontext)
    (byte b : Z) (fl : flow) :
  lzw_process_bit r d byte b = Normal (fl, r', d') -> lzw_frame r r'.
Proof.
  unfold lzw_process_bit.
  destruct (truthy (eoi_flag d)); [intros [= _ <- _]; apply lzw_frame_refl|].
  match goal with
  | |- context [mbind _ ?m] => destruct m as [d1| |]; simpl; try discriminate
  end.
  destruct (_ <=? _).
  - destruct (lzw_process_code r _ _) as [[[ok r1] d2]| |] eqn:Hcode; simpl;
      try discriminate.
    apply lzw_process_code_frame in Hcode.
    destruct (negb (truthy ok)); intros [= _ <- _]; exact Hcode.
  - intros [= _ <- _]. apply lzw_frame_refl.
Qed.

Lemma lzw_process_byte_frame (n : nat) (b : Z) (r r' : iwgifreadcontext)
    (d d' : lzwdeccontext) (byte : Z) (fl : flow) :
  lzw_process_byte n b r d byte = Normal (fl, r', d') -> lzw_frame r r'.
Proof.
  revert b r d. induction n as [|n IH]; intros b r d; simpl.
  - intros [= _ <- _]. apply lzw_frame_refl.
  - destruct (lzw_process_bit r d byte b) as [[[fl1 r1] d1]| |] eqn:Hbit; simpl;
      try discriminate.
    apply lzw_process_bit_frame in Hbit.
    destruct fl1.
    + intros H. apply IH in H. exact (lzw_frame_trans _ _ _ Hbit H).
    + intros [= _ <- _]. exact Hbit.
Qed.

Lemma lzw_process_bytes_frame (data : list Z) (r r' : iwgifreadcontext)
    (d d' : lzwdeccontext) (ok : Z) :
  lzw_process_bytes r d data = Normal (ok, r', d') -> lzw_frame r r'.
Proof.
  revert r d. induction data as [|byte data IH]; intros r d; cbn [lzw_process_bytes].
  - intros [= _ <- _]. apply lzw_frame_refl.
  - destruct (lzw_process_byte 8 0 r d byte) as [[[fl1 r1] d1]| |] eqn:Hbyte;
      cbn [mbind outcome_bind]; try discriminate.
    apply lzw_process_byte_frame in Hbyte.
    destruct fl1.
    + intros H. apply IH in H. exact (lzw_frame_trans _ _ _ Hbyte H).
    + intros [= _ <- _]. exact Hbyte.
Qed.

Lemma iwgif_read_image_loop_frame (fuel : nat) (r r' : iwgifreadcontext)
    (d d' : lzwdeccontext) (ok : Z) :
  iwgif_read_image_loop fuel r d = Normal (ok, r', d') -> decoding_frame r r'.
Proof.
  revert r d. induction fuel as [|fuel IH]; intros r d; cbn [iwgif_read_image_loop];
    [discriminate|].
  destruct (iwgif_read r 1) as [ok1 r1] eqn:H1. apply iwgif_read_frame in H1.
  destruct (negb (truthy ok1)); [intros [= _ <- _]; exact H1|].
  destruct (rbuf_at r1 0) as [n| |]; cbn [mbind outcome_bind]; try discriminate.
  destruct (n =? 0); [intros [= _ <- _]; exact H1|].
  destruct (iwgif_read r1 n) as [ok2 r2] eqn:H2. apply iwgif_read_frame in H2.
  pose proof (decoding_frame_trans _ _ _ H1 H2) as H12.
  destruct (negb (truthy ok2)); [intros [= _ <- _]; exact H12|].
  destruct (lzw_process_bytes r2 d _) as [[[ok3 r3] d3]| |] eqn:H3;
    cbn [mbind outcome_bind]; try discriminate.
  apply lzw_process_bytes_frame, lzw_frame_decoding in H3.
  pose proof (decoding_frame_trans _ _ _ H12 H3) as H123.
  destruct (negb (truthy ok3)); [intros [= _ <- _]; exact H123|].
  destruct (truthy (eoi_flag d3)); [intros [= _ <- _]; exact H123|].
  destruct (_ <=? _); [intros [= _ <- _]; exact H123|].
  intros H. apply IH in H. exact (decoding_frame_trans _ _ _ H123 H).
Qed.

(** ** Parents in the dictionary *)

(** The part of C5 that holds: the number of used entries never exceeds
    4096. *)
Lemma lzw_ct_used_le_4096 (R : Z) (d : lzwdeccontext) :
  2 <= R <= 11 -> lzw_reachable R d -> ct_used d <= 4096.
Proof.
  intros HR Hd. destruct (lzw_reachable_inv R d HR Hd). lia.
Qed.

(** An entry that is its own parent and has a positive length keeps the
    emission loop going for any number of rounds, once recording its
    pixel no longer changes the canvas. *)
Lemma lzw_emit_code_loop_self_parent (fuel : nat) (rctx : iwgifreadcontext)
    (d : lzwdeccontext) (code : Z) (e : lzw_tableentry) :
  ct_at d code = Normal e ->
  reference e = code -> 1 <= length_ e ->
  iwgif_record_pixel rctx (value e) (int_of_unsigned (length_ e)) = Normal rctx ->
  lzw_emit_code_loop fuel rctx d code = Diverges.
Proof.
  intros He Hr Hl Hpix. induction fuel as [|fuel IH]; simpl; [reflexivity|].
  rewrite He. simpl. rewrite Hpix. simpl.
  destruct (Z.ltb_spec (length_ e) 1); [lia|]. rewrite Hr. exact IH.
Qed.

(** C5 on the code. From the start state for root code size 2 the codes
    6, 0 (the byte 134) make the decoder append, at index 6, an entry
    whose parent is 6: not an earlier entry, and a cycle. The state is a
    reachable one, and when the code 6 follows (the byte 1) the emission
    never ends, in the decoder alone and in the decode of a whole file. *)
Theorem lzw_entry_is_its_own_parent :
  (exists rctx' d',
     lzw_process_bytes (rctx_2x2 []) lzw_start_2 [134] = Normal (1, rctx', d')
     /\ lzw_reachable 2 d'
     /\ ct_used d' = 7
     /\ array_get (ct d') 6 = Some (Build_lzw_tableentry 6 1 0 0))
  /\ lzw_process_bytes (rctx_2x2 []) lzw_start_2 [134; 1] = Diverges
  /\ decode (fun _ => 0) gif_self_reference = Diverges.
Proof.
  split.
  - destruct (lzw_process_bytes (rctx_2x2 []) lzw_start_2 [134])
      as [[[ok r] d']| |] eqn:Hrun.
    + exists r, d'.
      destruct (lzw_process_bytes_reachable 2 [134] (rctx_2x2 []) r lzw_start_2 d' ok)
        as [Hreach _].
      * lia.
      * exact lzw_start_2_reachable.
      * exact pending_ok_lzw_start_2.
      * exact Hrun.
      * vm_compute in Hrun. injection Hrun as <- <- <-.
        repeat split; try reflexivity. exact Hreach.
    + vm_compute in Hrun. discriminate.
    + vm_compute in Hrun. discriminate.
  - split; vm_compute; reflexivity.
Qed.

(** The loop in that state runs out of any number of rounds, not only of
    the 4097 [lzw_emit_code] allows for. *)
Lemma lzw_entry_is_its_own_parent_any_fuel (fuel : nat) :
  forall ok rctx d,
    lzw_process_bytes (rctx_2x2 []) lzw_start_2 [134] = Normal (ok, rctx, d) ->
    forall rctx1,
      iwgif_record_pixel rctx 0 1 = Normal rctx1 ->
      lzw_emit_code_loop fuel rctx1 d 6 = Diverges.
Proof.
  intros ok rctx d Hrun rctx1 Hpix.
  vm_compute in Hrun. injection Hrun as <- <- <-.
  vm_compute in Hpix. injection Hpix as <-.
  apply lzw_emit_code_loop_self_parent with (e := Build_lzw_tableentry 6 1 0 0).
  - vm_compute. reflexivity.
  - reflexivity.
  - simpl. lia.
  - vm_compute. reflexivity.
Qed.

(** ** The image descriptor *)

(** C1 on the code. In a file that places a 2x1 image at left 0, top 1
    of a 2x2 screen, the top field of the descriptor (1) never reaches
    [image_top], which stays 0: the two pixels land in row 0 of the
    canvas and row 1 stays empty. *)
Theorem image_top_not_read_from_descriptor :
  exists c rctx,
    decode (fun _ => 0) gif_image_at_top_1 = Normal (1, c, Some rctx)
    /\ image_left rctx = 0 /\ image_width rctx = 2 /\ image_height rctx = 1
    /\ image_top rctx = 0
    /\ pixels (img rctx) = Some [10; 11; 12; 20; 21; 22; 0; 0; 0; 0; 0; 0].
Proof.
  destruct (decode (fun _ => 0) gif_image_at_top_1) as [[[ok c] [rctx|]]| |] eqn:Hrun;
    vm_compute in Hrun; try discriminate.
  injection Hrun as <- <- <-. eexists _, _. repeat split; reflexivity.
Qed.

(** ** The color table *)

(** Reading a color table stores red, green and blue and leaves every
    alpha, and every other field but the source and the buffer, as it
    was. *)
Lemma iwgif_read_color_table_loop_spec (n : nat) (i : Z) (r r' : iwgifreadcontext) :
  iwgif_read_color_table_loop n i r = Normal r' ->
  exists ents,
    r' = set_colortable (Build_iw_palette (num_entries (colortable r)) ents) r
    /\ length ents = length (entry (colortable r))
    /\ forall j, ca <$> array_get ents j = ca <$> array_get (entry (colortable r)) j.
Proof.
  revert i r. induction n as [|n IH]; intros i r; simpl.
  - intros [= <-]. exists (entry (colortable r)).
    split; [|split; [reflexivity | reflexivity]].
    eta_rctx r.
  - destruct (rbuf_at r (3 * i + 0)) as [cr0| |]; simpl; try discriminate.
    destruct (rbuf_at r (3 * i + 1)) as [cg0| |]; simpl; try discriminate.
    destruct (rbuf_at r (3 * i + 2)) as [cb0| |]; simpl; try discriminate.
    destruct (array_get (entry (colortable r)) i) as [e|] eqn:He; simpl;
      try discriminate.
    destruct (array_set (entry (colortable r)) i _) as [ents1|] eqn:Hset; simpl;
      try discriminate.
    intros H. apply IH in H as (ents & -> & Hlen & Hca). simpl in *.
    exists ents. split; [reflexivity|]. split.
    + rewrite Hlen. exact (array_set_length _ _ _ _ Hset).
    + intros j. rewrite Hca. destruct (Z.eq_dec i j) as [<-|Hne].
      * rewrite (array_get_set_eq _ _ _ _ Hset), He. reflexivity.
      * rewrite (array_get_set_ne _ _ _ _ _ Hset Hne). reflexivity.
Qed.

Lemma iwgif_read_color_table_spec (r r' : iwgifreadcontext) (ok : Z) :
  iwgif_read_color_table r = Normal (ok, r') ->
  exists io rb ents,
    r' = set_colortable (Build_iw_palette (num_entries (colortable r)) ents)
           (set_iodescr io (set_rbuf rb r))
    /\ length ents = length (entry (colortable r))
    /\ forall j, ca <$> array_get ents j = ca <$> array_get (entry (colortable r)) j.
Proof.
  unfold iwgif_read_color_table.
  assert (Hid : forall r0 : iwgifreadcontext,
    r0 = set_colortable (Build_iw_palette (num_entries (colortable r0))
                                          (entry (colortable r0)))
           (set_iodescr (iodescr r0) (set_rbuf (rbuf r0) r0))).
  { intros r0. eta_rctx r0. }
  destruct (_ <? 1).
  { intros [= _ <-]. exists (iodescr r), (rbuf r), (entry (colortable r)).
    split; [apply Hid | split; reflexivity]. }
  destruct (iwgif_read r _) as [ok1 r1] eqn:Hread.
  assert (Hr1 : exists io rb, r1 = set_iodescr io (set_rbuf rb r)).
  { unfold iwgif_read in Hread.
    destruct (_ =? _); injection Hread as _ <-; eexists _, _; reflexivity. }
  destruct Hr1 as (io & rb & ->).
  destruct (negb (truthy ok1)).
  { intros [= _ <-]. exists io, rb, (entry (colortable r)).
    split; [|split; reflexivity].
    eta_rctx r. }
  destruct (iwgif_read_color_table_loop _ 0 _) as [r2| |] eqn:Hloop; simpl;
    try discriminate.
  apply iwgif_read_color_table_loop_spec in Hloop as (ents & -> & Hlen & Hca).
  intros [= _ <-]. exists io, rb, ents. simpl in *.
  split; [reflexivity | split; assumption].
Qed.

(** ** The start of an image block *)

Lemma keeps_transparency_refl (r : iwgifreadcontext) : keeps_transparency r r.
Proof. repeat split. Qed.

Lemma keeps_transparency_trans (r1 r2 r3 : iwgifreadcontext) :
  keeps_transparency r1 r2 -> keeps_transparency r2 r3 -> keeps_transparency r1 r3.
Proof.
  intros (A1 & A2 & A3 & A4) (B1 & B2 & B3 & B4).
  repeat split; congruence.
Qed.

Lemma keeps_transparency_frame (r r' : iwgifreadcontext) :
  decoding_frame r r' -> keeps_transparency r r'.
Proof. intros (io & rb & c & px & ps & ->). repeat split. Qed.

Lemma iwgif_read_color_table_keeps (r r' : iwgifreadcontext) (ok : Z) :
  iwgif_read_color_table r = Normal (ok, r') -> keeps_transparency r r'.
Proof.
  intros H. apply iwgif_read_color_table_spec in H as (io & rb & ents & -> & Hl & Ha).
  repeat split; simpl; assumption.
Qed.

Lemma iwgif_init_screen_spec (iw_malloc_large : Z -> Z -> bool)
    (r r' : iwgifreadcontext) (ok : Z) :
  iwgif_init_screen iw_malloc_large r = (ok, r') ->
  keeps_transparency r r'
  /\ image_width r' = image_width r /\ image_height r' = image_height r
  /\ (truthy (screen_initialized r) = false ->
      bytes_per_pixel r' = (if truthy (has_transparency r) then 4 else 3)
      /\ imgtype (img r') =
         (if truthy (has_transparency r) then IW_IMGTYPE_RGBA else IW_IMGTYPE_RGB)).
Proof.
  unfold iwgif_init_screen.
  destruct (truthy (screen_initialized r)).
  { intros [= _ <-]. repeat split; discriminate. }
  simpl. destruct (truthy (has_transparency r)); simpl;
    destruct (negb _); intros [= _ <-]; repeat split.
Qed.

(** What [iwgif_read_image] has done when it reaches the subblock loop. *)
Lemma iwgif_read_image_start_spec
    (iw_malloc_large : Z -> Z -> bool) (iw_malloc : Z -> bool)
    (r r1 : iwgifreadcontext) (ok : Z) (od : option lzwdeccontext) :
  iwgif_read_image_start iw_malloc_large iw_malloc r = Normal (ok, r1, od) ->
  keeps_transparency r r1
  /\ forall d, od = Some d ->
       ok = 1
       /\ total_npixels r1 = usz (image_width r1 * image_height r1)
       /\ image_width r1 * image_height r1 < 2 ^ 31
       /\ (truthy (screen_initialized r) = false ->
           bytes_per_pixel r1 = (if truthy (has_transparency r) then 4 else 3)
           /\ imgtype (img r1) =
              (if truthy (has_transparency r) then IW_IMGTYPE_RGBA else IW_IMGTYPE_RGB))
       /\ exists R, 2 <= R <= 11 /\ lzw_reachable R d /\ pending_ok d.
Proof.
  unfold iwgif_read_image_start.
  assert (Hnone : forall (ok0 : Z) (r0 : iwgifreadcontext),
    keeps_transparency r r0 ->
    Normal (ok0, r0, @None lzwdeccontext) = Normal (ok, r1, od) ->
    keeps_transparency r r1
    /\ forall d, od = Some d ->
         ok = 1
         /\ total_npixels r1 = usz (image_width r1 * image_height r1)
         /\ image_width r1 * image_height r1 < 2 ^ 31
         /\ (truthy (screen_initialized r) = false ->
             bytes_per_pixel r1 = (if truthy (has_transparency r) then 4 else 3)
             /\ imgtype (img r1) =
                (if truthy (has_transparency r) then IW_IMGTYPE_RGBA else IW_IMGTYPE_RGB))
         /\ exists R, 2 <= R <= 11 /\ lzw_reachable R d /\ pending_ok d).
  { intros ok0 r0 Hk [= _ <- <-]. split; [exact Hk | discriminate]. }
  destruct (iwgif_read r 10) as [ok0 r0] eqn:Hread.
  pose proof (keeps_transparency_frame _ _ (iwgif_read_frame _ _ _ _ Hread)) as K0.
  assert (S0 : screen_initialized r0 = screen_initialized r
               /\ has_transparency r0 = has_transparency r).
  { unfold iwgif_read in Hread. destruct (_ =? _); injection Hread as _ <-; split; reflexivity. }
  destruct (negb (truthy ok0)); [apply Hnone; exact K0|].
  destruct (iw_read_uint16le r0 0) as [v0| |]; simpl; try discriminate.
  destruct (iw_read_uint16le _ 2) as [v1| |]; simpl; try discriminate.
  destruct (iw_read_uint16le _ 4) as [v2| |]; simpl; try discriminate.
  destruct (iw_read_uint16le _ 6) as [v3| |]; simpl; try discriminate.
  destruct (rbuf_at _ 8) as [b8| |]; simpl; try discriminate.
  match goal with
  | |- context [mbind _ ?m] =>
      assert (Hm : forall ok1 r2, m = Normal (ok1, r2) ->
                keeps_transparency r r2
                /\ screen_initialized r2 = screen_initialized r
                /\ image_width r2 = v2 /\ image_height r2 = v3)
  end.
  { intros ok1 r2. destruct (truthy (Z.land (Z.shiftr b8 7) 1)).
    - intros H. pose proof (iwgif_read_color_table_keeps _ _ _ H) as K.
      apply iwgif_read_color_table_spec in H as (io & rb & ents & -> & _ & _).
      split.
      + apply (keeps_transparency_trans _ r0); [exact K0|].
        eapply keeps_transparency_trans; [|exact K]. repeat split.
      + simpl. destruct S0. repeat split; assumption.
    - intros [= _ <-]. split.
      + apply (keeps_transparency_trans _ r0); [exact K0|]. repeat split.
      + simpl. destruct S0. repeat split; assumption. }
  match goal with
  | |- context [mbind _ ?m] => destruct m as [[ok1 r2]| |]; simpl; try discriminate
  end.
  destruct (Hm ok1 r2 eq_refl) as (K2 & S2 & W2 & H2).
  destruct (negb (truthy ok1)); [apply Hnone; exact K2|].
  destruct (rbuf_at r2 9) as [rc| |]; simpl; try discriminate.
  destruct (rc <? 2) eqn:Hlo; simpl.
  { apply Hnone. eapply keeps_transparency_trans; [exact K2|].
    apply keeps_transparency_frame, decoding_frame_seterror. }
  destruct (11 <? rc) eqn:Hhi; simpl.
  { apply Hnone. eapply keeps_transparency_trans; [exact K2|].
    apply keeps_transparency_frame, decoding_frame_seterror. }
  destruct (iwgif_init_screen iw_malloc_large r2) as [ok2 r3] eqn:Hscr.
  apply iwgif_init_screen_spec in Hscr as (K3 & W3 & H3 & B3).
  pose proof (keeps_transparency_trans _ _ _ K2 K3) as K23.
  destruct (negb (truthy ok2)); [apply Hnone; exact K23|].
  destruct (Z.leb_spec (2 ^ 31) (image_width r3 * image_height r3)) as [|Hprod];
    [discriminate|].
  unfold iwgif_make_row_pointers. simpl.
  destruct (negb (iw_malloc _)); simpl.
  { apply Hnone. eapply keeps_transparency_trans; [exact K23|]. repeat split. }
  assert (HR : 2 <= rc <= 11) by (apply Z.ltb_ge in Hlo, Hhi; lia).
  destruct (lzw_init_ok rc HR) as (d0 & Hinit & E1 & E2 & E3 & E4 & E5 & E6 & E7 & E8 & E9 & E10).
  rewrite Hinit. simpl. intros [= <- <- <-]. split.
  { eapply keeps_transparency_trans; [exact K23|]. repeat split. }
  intros d [= <-]. split; [reflexivity|]. simpl.
  split; [reflexivity|]. split; [exact Hprod|]. split.
  { intros Hs. destruct K2 as (_ & T2 & _). rewrite <- T2.
    apply B3. rewrite S2. exact Hs. }
  exists rc. split; [exact HR|]. split; [apply lzw_reach_init, Hinit|].
  unfold pending_ok. simpl. rewrite E9, E10, E1, u32_small by lia.
  simpl. lia.
Qed.

(** ** The pixel budget *)

Lemma lzw_process_bytes_after_eoi (r : iwgifreadcontext) (d : lzwdeccontext)
    (data : list Z) :
  truthy (eoi_flag d) = true -> lzw_process_bytes r d data = Normal (1, r, d).
Proof.
  intros He. destruct data as [|byte data]; [reflexivity|].
  cbn [lzw_process_bytes lzw_process_byte]. unfold lzw_process_bit.
  rewrite He. reflexivity.
Qed.

(** One round of the subblock loop: either the loop ends in this round,
    or a subblock was decoded without an end-of-information code, the
    count is still below the budget, and the loop goes on. *)
Lemma iwgif_read_image_loop_round (fuel : nat) (r r' : iwgifreadcontext)
    (d d' : lzwdeccontext) (ok : Z) :
  iwgif_read_image_loop (S fuel) r d = Normal (ok, r', d') ->
  (ok = 0
   \/ (ok = 1 /\ (rbuf_at r' 0 = Normal 0
                 \/ truthy (eoi_flag d') = true
                 \/ total_npixels r' <= pixels_set r')))
  \/ exists r3 d3,
       decoding_frame r r3
       /\ truthy (eoi_flag d3) = false
       /\ pixels_set r3 < total_npixels r3
       /\ iwgif_read_image_loop fuel r3 d3 = Normal (ok, r', d').
Proof.
  cbn [iwgif_read_image_loop].
  destruct (iwgif_read r 1) as [ok1 r1] eqn:H1.
  pose proof (iwgif_read_frame _ _ _ _ H1) as F1.
  destruct (negb (truthy ok1)); [intros [= <- _ _]; left; left; reflexivity|].
  destruct (rbuf_at r1 0) as [n| |] eqn:Hn; cbn [mbind outcome_bind]; try discriminate.
  destruct (Z.eqb_spec n 0) as [->|Hn0].
  { intros [= <- <- _]. left. right. split; [reflexivity|]. left. exact Hn. }
  destruct (iwgif_read r1 n) as [ok2 r2] eqn:H2.
  pose proof (decoding_frame_trans _ _ _ F1 (iwgif_read_frame _ _ _ _ H2)) as F2.
  destruct (negb (truthy ok2)); [intros [= <- _ _]; left; left; reflexivity|].
  destruct (lzw_process_bytes r2 d _) as [[[ok3 r3] d3]| |] eqn:H3;
    cbn [mbind outcome_bind]; try discriminate.
  pose proof (decoding_frame_trans _ _ _ F2
                (lzw_frame_decoding _ _ (lzw_process_bytes_frame _ _ _ _ _ _ H3))) as F3.
  destruct (negb (truthy ok3)); [intros [= <- _ _]; left; left; reflexivity|].
  destruct (truthy (eoi_flag d3)) eqn:He.
  { intros [= <- <- <-]. left. right. split; [reflexivity|]. right. left. exact He. }
  destruct (Z.leb_spec (total_npixels r3) (pixels_set r3)) as [Hfull|Hmore].
  { intros [= <- <- <-]. left. right. split; [reflexivity|]. right. right. exact Hfull. }
  intros Hrest. right. exists r3, d3. repeat split; assumption.
Qed.

Lemma iwgif_read_image_loop_stops (fuel : nat) (r r' : iwgifreadcontext)
    (d d' : lzwdeccontext) :
  iwgif_read_image_loop fuel r d = Normal (1, r', d') ->
  rbuf_at r' 0 = Normal 0
  \/ truthy (eoi_flag d') = true
  \/ total_npixels r' <= pixels_set r'.
Proof.
  revert r d. induction fuel as [|fuel IH]; intros r d H; [discriminate|].
  apply iwgif_read_image_loop_round in H
    as [[H0 | [_ Hstop]] | (r3 & d3 & _ & _ & _ & Hrest)].
  - discriminate.
  - exact Hstop.
  - exact (IH _ _ Hrest).
Qed.

(** When the count is compared with the budget. For an image block that
    has reached the subblock loop, and a loop that ends in success: the
    budget is the product of the width and the height read from the
    descriptor; the loop has ended with the byte 0 at the start of the
    buffer, as after a subblock of length zero, or with the
    end-of-information code seen, or with the count at the budget or
    above it. A round goes on to a further subblock only with no
    end-of-information code seen and the count below the budget, and once
    the end-of-information code is seen [lzw_process_bytes] decodes
    nothing more. *)
Lemma pixel_budget_checked_after_each_subblock
    (iw_malloc_large : Z -> Z -> bool) (iw_malloc : Z -> bool)
    (r r1 r2 : iwgifreadcontext) (d d2 : lzwdeccontext) (fuel : nat) :
  iwgif_read_image_start iw_malloc_large iw_malloc r = Normal (1, r1, Some d) ->
  iwgif_read_image_loop fuel r1 d = Normal (1, r2, d2) ->
  total_npixels r2 = usz (image_width r2 * image_height r2)
  /\ (rbuf_at r2 0 = Normal 0
      \/ truthy (eoi_flag d2) = true
      \/ total_npixels r2 <= pixels_set r2)
  /\ (forall fuel' ra da ok rb db,
        iwgif_read_image_loop (S fuel') ra da = Normal (ok, rb, db) ->
        (ok = 0
         \/ (ok = 1 /\ (rbuf_at rb 0 = Normal 0
                       \/ truthy (eoi_flag db) = true
                       \/ total_npixels rb <= pixels_set rb)))
        \/ exists r3 d3,
             decoding_frame ra r3
             /\ truthy (eoi_flag d3) = false
             /\ pixels_set r3 < total_npixels r3
             /\ iwgif_read_image_loop fuel' r3 d3 = Normal (ok, rb, db))
  /\ (forall data, truthy (eoi_flag d2) = true ->
        lzw_process_bytes r2 d2 data = Normal (1, r2, d2)).
Proof.
  intros Hstart Hloop.
  apply iwgif_read_image_start_spec in Hstart as [_ Hd].
  destruct (Hd d eq_refl) as (_ & Htot & _ & _ & _).
  pose proof (iwgif_read_image_loop_frame _ _ _ _ _ _ Hloop)
    as (io & rb & c & px & ps & ->).
  split; [exact Htot|].
  split; [exact (iwgif_read_image_loop_stops _ _ _ _ _ Hloop)|].
  split; [intros; eapply iwgif_read_image_loop_round; eassumption|].
  intros data He. apply lzw_process_bytes_after_eoi, He.
Qed.

Lemma pixel_budget_checked_after_each_subblock_witness :
  exists r1 d r2 d2,
    iwgif_read_image_start (fun _ _ => true) (fun _ => true)
      (rctx_2x2 (drop 1 (gif_image 0 0 2 2 [68; 52; 80]))) = Normal (1, r1, Some d)
    /\ iwgif_read_image_loop 6 r1 d = Normal (1, r2, d2)
    /\ total_npixels r2 = usz (image_width r2 * image_height r2)
    /\ (rbuf_at r2 0 = Normal 0
        \/ truthy (eoi_flag d2) = true
        \/ total_npixels r2 <= pixels_set r2).
Proof.
  destruct (iwgif_read_image_start (fun _ _ => true) (fun _ => true)
              (rctx_2x2 (drop 1 (gif_image 0 0 2 2 [68; 52; 80]))))
    as [[[ok r1] [d|]]| |] eqn:Hs;
    try (vm_compute in Hs; discriminate).
  assert (Hok : ok = 1) by (vm_compute in Hs; congruence). subst ok.
  destruct (iwgif_read_image_loop 6 r1 d) as [[[ok r2] d2]| |] eqn:Hl;
    try (vm_compute in Hs; injection Hs as <- <-; vm_compute in Hl; discriminate).
  assert (Hok : ok = 1).
  { vm_compute in Hs. injection Hs as <- <-. vm_compute in Hl. congruence. }
  subst ok.
  exists r1, d, r2, d2. split; [reflexivity|]. split; [exact Hl|].
  destruct (pixel_budget_checked_after_each_subblock
              (fun _ _ => true) (fun _ => true) _ r1 r2 d d2 6 Hs Hl)
    as (Htot & Hstop & _).
  split; assumption.
Defined.

(** A pixel that is inside the screen and has a color of the palette is
    looked up in the row table, whatever the number of rows of the image:
    past the last slot of the table the access is outside the array. *)
Lemma iwgif_record_pixel_past_row_table (r : iwgifreadcontext) (coloridx offset : Z)
    (rows : list Z) (e : iw_rgba8color) :
  let pixnum := usz (pixels_set r + usz offset) in
  let xi := pixnum mod usz (image_width r) in
  let yi := pixnum / usz (image_width r) in
  usz (image_width r) <> 0 ->
  usz (usz (image_left r) + xi) < usz (screen_width r) ->
  usz (usz (image_top r) + yi) < usz (screen_height r) ->
  coloridx < u32 (num_entries (colortable r)) ->
  array_get (entry (colortable r)) coloridx = Some e ->
  row_pointers r = Some rows ->
  Z.of_nat (length rows) <= yi ->
  iwgif_record_pixel r coloridx offset = Undefined.
Proof.
  intros pixnum xi yi Hw Hx Hy Hc He Hrows Hlen. unfold iwgif_record_pixel.
  destruct (Z.eqb_spec (usz (image_width r)) 0); [contradiction|].
  fold pixnum. fold xi yi.
  destruct (Z.leb_spec (usz (screen_width r)) (usz (usz (image_left r) + xi))); [lia|].
  destruct (Z.leb_spec (usz (screen_height r)) (usz (usz (image_top r) + yi))); [lia|].
  cbn [orb].
  destruct (Z.ltb_spec coloridx (u32 (num_entries (colortable r)))); [|lia].
  rewrite He, Hrows. cbn [defined mbind outcome_bind].
  unfold array_get.
  destruct (Z.ltb_spec yi (Z.of_nat (length rows))); [lia|].
  rewrite andb_false_r. reflexivity.
Qed.

(** The budget itself is a product of two [int]s: for an image of 65535
    by 65535 pixels it is outside the range of [int]. *)
Lemma image_budget_overflows_int :
  exists r2,
    iwgif_read
      (rctx_after_header
         (gif_head_2x2 ++ [44; 0; 0; 0; 0; 255; 255; 255; 255; 0; 2; 0; 59])) 1 = (1, r2)
    /\ iwgif_read_image_start (fun _ _ => true) (fun _ => true) r2 = Undefined.
Proof.
  eexists. split; [vm_compute; reflexivity|]. vm_compute. reflexivity.
Qed.

(** C4 on the code. The count of decoded pixels is not held to the
    budget: [lzw_emit_code] adds the length of every run to [pixels_set]
    without a test, the one comparison with [total_npixels] comes after a
    whole subblock, and [iwgif_record_pixel] tests a pixel against the
    screen, not against the image. A 2x2 image whose single subblock
    holds five pixels is decoded with success, and the count is 5 for a
    budget of 4. With the same data in a 2x1 image on the 2x2 screen the
    row table has one slot; the third pixel is in row 1 of the image and
    inside the screen, its row is read from the table outside the array,
    and the decode of the file has no defined outcome. *)
Theorem pixel_count_passes_budget_and_row_table :
  (exists c rctx,
     decode (fun _ => 0) gif_five_pixels_in_2x2 = Normal (1, c, Some rctx)
     /\ image_width rctx * image_height rctx = 4
     /\ total_npixels rctx = 4
     /\ pixels_set rctx = 5)
  /\ decode (fun _ => 0) gif_five_pixels_in_2x1 = Undefined
  /\ exists r2 r1 d,
       iwgif_read (rctx_after_header gif_five_pixels_in_2x1) 1 = (1, r2)
       /\ iwgif_read_image_start (fun _ _ => true) (fun _ => true) r2
          = Normal (1, r1, Some d)
       /\ image_width r1 = 2 /\ image_height r1 = 1 /\ total_npixels r1 = 2
       /\ screen_width r1 = 2 /\ screen_height r1 = 2
       /\ row_pointers r1 = Some [0]
       /\ iwgif_record_pixel (set_pixels_set 2 r1) 2 0 = Undefined
       /\ iwgif_read_image_loop 7 r1 d = Undefined.
Proof.
  split.
  { eexists _, _. split; [vm_compute; reflexivity|].
    repeat split; reflexivity. }
  split; [vm_compute; reflexivity|].
  eexists _, _, _. split; [vm_compute; reflexivity|].
  split; [vm_compute; reflexivity|].
  repeat split; vm_compute; reflexivity.
Qed.

(** ** Graphics control extensions *)

Lemma array_get_app_l {A : Type} (l1 l2 : list A) (i : Z) :
  0 <= i < Z.of_nat (length l1) -> array_get (l1 ++ l2) i = l1 !! Z.to_nat i.
Proof.
  intros Hi. unfold array_get. rewrite length_app.
  destruct (Z.leb_spec 0 i); [|lia].
  destruct (Z.ltb_spec i (Z.of_nat (length l1 + length l2))); [|lia]. simpl.
  apply lookup_app_l. lia.
Qed.

(** A read that the source can serve: the bytes move to the start of the
    buffer. *)
Lemma iwgif_read_prefix (r : iwgifreadcontext) (bytes rest : list Z) :
  iodescr r = bytes ++ rest ->
  iwgif_read r (Z.of_nat (length bytes)) =
  (1, set_iodescr rest (set_rbuf (bytes ++ drop (length bytes) (rbuf r)) r)).
Proof.
  intros Hio. unfold iwgif_read. rewrite Hio, Nat2Z.id.
  rewrite take_app_length, drop_app_length, Z.eqb_refl. reflexivity.
Qed.

Lemma rbuf_at_prefix (r : iwgifreadcontext) (bytes tail : list Z) (i : Z) :
  rbuf r = bytes ++ tail -> 0 <= i < Z.of_nat (length bytes) ->
  rbuf_at r i = defined (bytes !! Z.to_nat i).
Proof.
  intros Hrb Hi. unfold rbuf_at. rewrite Hrb, array_get_app_l by exact Hi.
  reflexivity.
Qed.

(** A payload whose size byte is not 4 or whose terminator is not 0: the
    call reads the six bytes, changes nothing else, and returns what its
    variable [retval] held on entry. *)
Lemma iwgif_read_graphics_control_ext_malformed (retval : Z) (r : iwgifreadcontext)
    (b0 b1 b2 b3 b4 b5 : Z) (rest : list Z) :
  iodescr r = [b0; b1; b2; b3; b4; b5] ++ rest ->
  b0 <> 4 \/ b5 <> 0 ->
  iwgif_read_graphics_control_ext retval r =
  Normal (retval,
          set_iodescr rest (set_rbuf ([b0; b1; b2; b3; b4; b5] ++ drop 6 (rbuf r)) r)).
Proof.
  intros Hio Hbad. unfold iwgif_read_graphics_control_ext.
  rewrite (iwgif_read_prefix r [b0; b1; b2; b3; b4; b5] rest Hio
           : iwgif_read r 6 = _).
  cbn [truthy negb Z.eqb].
  set (r1 := set_iodescr rest _).
  assert (Hrb : rbuf r1 = [b0; b1; b2; b3; b4; b5] ++ drop 6 (rbuf r)) by reflexivity.
  rewrite (rbuf_at_prefix r1 _ _ 0 Hrb) by (simpl; lia).
  simpl.
  destruct (Z.eqb_spec b0 4) as [->|]; [|reflexivity]. simpl.
  rewrite (rbuf_at_prefix r1 _ _ 5 Hrb) by (simpl; lia).
  simpl. destruct (Z.eqb_spec b5 0) as [->|]; [|reflexivity]. lia.
Qed.

(** C3 on the code. A file whose graphics control extension has the
    terminator byte 1 is followed by a well-formed image. When the
    variable [retval] of [iwgif_read_graphics_control_ext] happens to hold
    0, the decode fails and reports a read error; when it holds 1, the
    image is decoded. *)
Theorem malformed_gce_outcome_is_left_to_uninitialized_retval :
  (exists c rctx,
     decode (fun _ => 0) gif_malformed_gce = Normal (0, c, Some rctx)
     /\ errors c = [iws_gif_read_error]
     /\ input_image c = None
     /\ pixels (img rctx) = None)
  /\ (exists c rctx,
        decode (fun _ => 1) gif_malformed_gce = Normal (1, c, Some rctx)
        /\ errors c = []
        /\ pixels (img rctx) = Some [10; 11; 12; 20; 21; 22; 0; 0; 0; 0; 0; 0]).
Proof.
  split.
  - destruct (decode (fun _ => 0) gif_malformed_gce) as [[[ok c] [rctx|]]| |] eqn:Hrun;
      vm_compute in Hrun; try discriminate.
    injection Hrun as <- <- <-. eexists _, _. repeat split; reflexivity.
  - destruct (decode (fun _ => 1) gif_malformed_gce) as [[[ok c] [rctx|]]| |] eqn:Hrun;
      vm_compute in Hrun; try discriminate.
    injection Hrun as <- <- <-. eexists _, _. repeat split; reflexivity.
Qed.






(** ** Several extensions before the image *)












(** No part of [iwgif_read_image] writes [image_top]: it is after the
    image block what it was before. *)
Lemma iwgif_read_image_image_top
    (iw_malloc_large : Z -> Z -> bool) (iw_malloc : Z -> bool)
    (r r' : iwgifreadcontext) (ok : Z) :
  iwgif_read_image iw_malloc_large iw_malloc r = Normal (ok, r') ->
  image_top r' = image_top r.
Proof.
  unfold iwgif_read_image.
  destruct (iwgif_read_image_start iw_malloc_large iw_malloc r)
    as [[[ok1 r1] od]| |] eqn:Hstart; cbn [mbind outcome_bind]; try discriminate.
  apply iwgif_read_image_start_spec in Hstart as [(Htop & _) _].
  destruct od as [d|].
  - destruct (iwgif_read_image_loop _ r1 d) as [[[ok2 r2] d2]| |] eqn:Hloop;
      cbn [mbind outcome_bind]; try discriminate.
    apply iwgif_read_image_loop_frame in Hloop as (io & rb & c & px & ps & ->).
    intros [= _ <-]. exact Htop.
  - intros [= _ <-]. exact Htop.
Qed.

(** ** The palette has 256 slots when the blocks are read *)

Lemma iwgif_opaque_loop_spec (n : nat) :
  forall (i : Z) (r r' : iwgifreadcontext),
    iwgif_opaque_loop n i r = Normal r' ->
    exists ents,
      r' = set_colortable (Build_iw_palette (num_entries (colortable r)) ents) r
      /\ length ents = length (entry (colortable r)).
Proof.
  induction n as [|n IH]; intros i r r'; simpl.
  - intros [= <-]. exists (entry (colortable r)). split; [|reflexivity].
    eta_rctx r.
  - destruct (array_get (entry (colortable r)) i) as [e|]; simpl; [|discriminate].
    destruct (array_set (entry (colortable r)) i _) as [ents1|] eqn:Hset; simpl;
      [|discriminate].
    intros H. apply IH in H as (ents & -> & Hlen). simpl in *.
    exists ents. split; [reflexivity|].
    rewrite Hlen. exact (array_set_length _ _ _ _ Hset).
Qed.

Lemma iwgif_read_screen_descriptor_slots
    (iw_check_image_dimensons : Z -> Z -> bool) (r r' : iwgifreadcontext) (ok : Z) :
  iwgif_read_screen_descriptor iw_check_image_dimensons r = Normal (ok, r') ->
  entry (colortable r') = entry (colortable r)
  /\ screen_initialized r' = screen_initialized r.
Proof.
  unfold iwgif_read_screen_descriptor.
  destruct (iwgif_read r 7) as [ok1 r1] eqn:H1.
  assert (E1 : entry (colortable r1) = entry (colortable r)
               /\ screen_initialized r1 = screen_initialized r).
  { unfold iwgif_read in H1. destruct (_ =? _); injection H1 as _ <-; split; reflexivity. }
  destruct (negb (truthy ok1)); [intros [= _ <-]; exact E1|].
  destruct (iw_read_uint16le r1 0) as [sw| |]; simpl; try discriminate.
  destruct (iw_read_uint16le r1 2) as [sh| |]; simpl; try discriminate.
  destruct (negb (iw_check_image_dimensons sw sh)); [intros [= _ <-]; exact E1|].
  destruct (rbuf_at _ 4) as [b4| |]; simpl; try discriminate.
  match goal with
  | |- context [mbind _ ?m] =>
      assert (Hm : forall r2, m = Normal r2 ->
                entry (colortable r2) = entry (colortable r)
                /\ screen_initialized r2 = screen_initialized r)
  end.
  { intros r2. destruct (truthy (Z.land (Z.shiftr b4 7) 1)).
    - destruct (rbuf_at _ 5) as [b5| |]; simpl; try discriminate.
      destruct (b5 <? _); intros [= <-]; exact E1.
    - intros [= <-]. exact E1. }
  match goal with
  | |- context [mbind _ ?m] => destruct m as [r2| |]; simpl; try discriminate
  end.
  specialize (Hm r2 eq_refl).
  destruct (rbuf_at r2 6) as [b6| |]; simpl; try discriminate.
  destruct (negb (b6 =? 0)); intros [= _ <-]; exact Hm.
Qed.

(** When [iwgif_read_main] enters the loop over the blocks, the palette
    has 256 slots and the screen is not allocated: what C9 and C10
    suppose of the context holds in every decode. *)
Lemma iwgif_read_main_start_spec
    (iw_check_image_dimensons : Z -> Z -> bool)
    (c : iw_context) (source : list Z) (r : iwgifreadcontext) (ok : Z) :
  iwgif_read_main_start iw_check_image_dimensons (rctx_init c source) = Normal (ok, r) ->
  length (entry (colortable r)) = 256%nat
  /\ truthy (screen_initialized r) = false.
Proof.
  unfold iwgif_read_main_start.
  pose proof (iwgif_opaque_loop_spec 256 0 (rctx_init c source)) as Hspec.
  generalize dependent (iwgif_opaque_loop 256 0 (rctx_init c source)).
  intros o Hspec.
  destruct o as [r0| |]; cbn [mbind outcome_bind]; try discriminate.
  destruct (Hspec r0 eq_refl) as (ents & -> & Hlen).
  assert (Hlen0 : length ents = 256%nat).
  { rewrite Hlen. unfold rctx_init. cbn [colortable entry]. apply length_replicate. }
  clear Hlen Hspec.
  set (ra := set_colortable _ _).
  assert (Ea : length (entry (colortable ra)) = 256%nat
               /\ truthy (screen_initialized ra) = false) by (split; [exact Hlen0 | reflexivity]).
  clearbody ra.
  unfold iwgif_read_file_header.
  destruct (iwgif_read ra 6) as [ok1 r1] eqn:H1.
  assert (E1 : length (entry (colortable r1)) = 256%nat
               /\ truthy (screen_initialized r1) = false).
  { unfold iwgif_read in H1. destruct (_ =? _); injection H1 as _ <-; exact Ea. }
  destruct (negb (truthy ok1)); cbn [mbind outcome_bind mret outcome_ret negb truthy Z.eqb];
    [intros [= _ <-]; exact E1|].
  destruct (rbuf_at r1 0) as [c0| |]; cbn [mbind outcome_bind]; try discriminate.
  destruct (rbuf_at r1 1) as [c1| |]; cbn [mbind outcome_bind]; try discriminate.
  destruct (rbuf_at r1 2) as [c2| |]; cbn [mbind outcome_bind]; try discriminate.
  destruct (_ || _); cbn [mbind outcome_bind mret outcome_ret negb truthy Z.eqb];
    [intros [= _ <-]; exact E1|].
  destruct (iwgif_read_screen_descriptor _ r1) as [[ok2 r2]| |] eqn:H2;
    cbn [mbind outcome_bind]; try discriminate.
  apply iwgif_read_screen_descriptor_slots in H2 as [H2 H2'].
  assert (E2 : length (entry (colortable r2)) = 256%nat
               /\ truthy (screen_initialized r2) = false)
    by (rewrite H2, H2'; exact E1).
  destruct (negb (truthy ok2)); [intros [= _ <-]; exact E2|].
  destruct (iwgif_read_color_table r2) as [[ok3 r3]| |] eqn:H3;
    cbn [mbind outcome_bind]; try discriminate.
  apply iwgif_read_color_table_spec in H3 as (io & rb & ents3 & -> & Hl3 & _).
  assert (E3 : length ents3 = 256%nat /\ truthy (screen_initialized r2) = false)
    by (rewrite Hl3; exact E2).
  destruct (negb (truthy ok3)); [intros [= _ <-]; exact E3|].
  cbn [has_bg_color set_colortable set_iodescr set_rbuf].
  destruct (truthy (has_bg_color r2)).
  - destruct (defined (array_get _ _)) as [e| |]; cbn [mbind outcome_bind];
      try discriminate.
    intros [= _ <-]. exact E3.
  - intros [= _ <-]. exact E3.
Qed.

(** An extension block, of whatever kind and however formed, leaves the
    number of palette slots and the state of the screen as they were. *)
Lemma iwgif_read_extension_slots (retval : Z) (r r' : iwgifreadcontext) (ok : Z) :
  iwgif_read_extension retval r = Normal (ok, r') ->
  length (entry (colortable r')) = length (entry (colortable r))
  /\ screen_initialized r' = screen_initialized r.
Proof.
  assert (Hread : forall a a' n k, iwgif_read a n = (k, a') ->
            entry (colortable a') = entry (colortable a)
            /\ screen_initialized a' = screen_initialized a).
  { intros a a' n k H. unfold iwgif_read in H.
    destruct (_ =? _); injection H as _ <-; split; reflexivity. }
  assert (Hskip : forall fuel a a' k, iwgif_skip_subblocks_loop fuel a = Normal (k, a') ->
            entry (colortable a') = entry (colortable a)
            /\ screen_initialized a' = screen_initialized a).
  { induction fuel as [|fuel IH]; intros a a' k; cbn [iwgif_skip_subblocks_loop];
      [discriminate|].
    destruct (iwgif_read a 1) as [k1 a1] eqn:H1. apply Hread in H1 as [E1 S1].
    destruct (negb (truthy k1)); [intros [= _ <-]; split; assumption|].
    destruct (rbuf_at a1 0) as [n| |]; cbn [mbind outcome_bind]; try discriminate.
    destruct (n =? 0); [intros [= _ <-]; split; assumption|].
    destruct (iwgif_read a1 n) as [k2 a2] eqn:H2. apply Hread in H2 as [E2 S2].
    destruct (negb (truthy k2)); [intros [= _ <-]; split; congruence|].
    intros H. apply IH in H as [E3 S3]. split; congruence. }
  unfold iwgif_read_extension.
  destruct (iwgif_read r 1) as [ok1 r1] eqn:H1. apply Hread in H1 as [E1 S1].
  destruct (negb (truthy ok1)); [intros [= _ <-]; split; congruence|].
  destruct (rbuf_at r1 0) as [t| |]; cbn [mbind outcome_bind]; try discriminate.
  destruct (t =? 249).
  - unfold iwgif_read_graphics_control_ext.
    destruct (iwgif_read r1 6) as [ok2 r2] eqn:H2. apply Hread in H2 as [E2 S2].
    assert (Hdone : forall k a, a = r2 ->
      Normal (k, a) ≫= (λ '(ok0, rctx), if negb (truthy ok0) then mret (0, rctx)
                                         else mret (1, rctx)) = Normal (ok, r') ->
      length (entry (colortable r')) = length (entry (colortable r))
      /\ screen_initialized r' = screen_initialized r).
    { intros k a -> H. cbn [mbind outcome_bind] in H.
      destruct (negb (truthy k)); injection H as _ <-; split; congruence. }
    destruct (negb (truthy ok2)); [apply Hdone; reflexivity|].
    destruct (rbuf_at r2 0) as [b0| |]; cbn [mbind outcome_bind]; try discriminate.
    destruct (negb (b0 =? 4)); [apply Hdone; reflexivity|].
    destruct (rbuf_at r2 5) as [b5| |]; cbn [mbind outcome_bind]; try discriminate.
    destruct (negb (b5 =? 0)); [apply Hdone; reflexivity|].
    destruct (rbuf_at r2 1) as [b1| |]; cbn [mbind outcome_bind]; try discriminate.
    destruct (truthy (has_transparency (set_has_transparency (Z.land b1 1) r2))).
    + destruct (rbuf_at _ 4) as [b4| |]; cbn [mbind outcome_bind]; try discriminate.
      destruct (array_get _ _) as [e|]; cbn [defined mbind outcome_bind];
        try discriminate.
      destruct (array_set _ _ _) as [ents|] eqn:Hset; cbn [defined mbind outcome_bind];
        try discriminate.
      apply array_set_length in Hset. simpl in Hset.
      cbn [mret outcome_ret truthy Z.eqb negb].
      intros [= _ <-]. simpl. split; congruence.
    + cbn [mbind outcome_bind mret outcome_ret truthy Z.eqb negb].
      intros [= _ <-]. simpl. split; congruence.
  - unfold iwgif_skip_subblocks.
    destruct (iwgif_skip_subblocks_loop _ r1) as [[ok2 r2]| |] eqn:H2;
      cbn [mbind outcome_bind]; try discriminate.
    apply Hskip in H2 as [E2 S2].
    destruct (negb (truthy ok2)); intros [= _ <-]; split; congruence.
Qed.

(** ** Interlace order *)

Lemma iwgif_row_order_passes (i h : Z) :
  truthy i = true ->
  iwgif_row_order i h =
  concat ((fun p => interlace_pass (Z.to_nat h) (fst p) (snd p) h) <$> interlace_passes).
Proof.
  intros Hi. unfold iwgif_row_order. rewrite Hi. simpl.
  rewrite app_nil_r. reflexivity.
Qed.

(** C2, as amended. For an interlaced image of 8 rows the row table built
    by [iwgif_make_row_pointers] maps the sequential decoded rows 0..7 to
    the true rows 0,4,2,6,1,3,5,7, which is the concatenation of the four
    passes with (start,step) = (0,8),(4,8),(2,4),(1,2): the last pass
    visits the odd rows in increasing order. *)
Theorem interlace_row_order_8 (iw_malloc : Z -> bool) (rctx : iwgifreadcontext) :
  truthy (interlaced rctx) = true ->
  image_height rctx = 8 ->
  iw_malloc (8 * 8) = true ->
  iwgif_row_order (interlaced rctx) (image_height rctx) = [0; 4; 2; 6; 1; 3; 5; 7]
  /\ iwgif_row_order (interlaced rctx) (image_height rctx) =
     concat ((fun p => interlace_pass 8 (fst p) (snd p) 8) <$> [(0, 8); (4, 8); (2, 4); (1, 2)])
  /\ iwgif_make_row_pointers iw_malloc rctx =
     (1, set_row_pointers (Some (row_pointer rctx <$> [0; 4; 2; 6; 1; 3; 5; 7])) rctx).
Proof.
  intros Hi Hh Hm.
  assert (Ho : iwgif_row_order (interlaced rctx) (image_height rctx)
               = [0; 4; 2; 6; 1; 3; 5; 7]).
  { rewrite (iwgif_row_order_passes _ _ Hi), Hh. vm_compute. reflexivity. }
  split; [exact Ho|]. split.
  - rewrite Ho. vm_compute. reflexivity.
  - unfold iwgif_make_row_pointers. rewrite Ho, Hh, Hm. reflexivity.
Qed.

Lemma interlace_row_order_8_witness :
  let rctx := set_image_height 8 (set_interlaced 1 (rctx_init ctx_empty [])) in
  iwgif_row_order (interlaced rctx) (image_height rctx) = [0; 4; 2; 6; 1; 3; 5; 7]
  /\ iwgif_row_order (interlaced rctx) (image_height rctx) =
     concat ((fun p => interlace_pass 8 (fst p) (snd p) 8) <$> [(0, 8); (4, 8); (2, 4); (1, 2)])
  /\ iwgif_make_row_pointers (fun _ => true) rctx =
     (1, set_row_pointers (Some (row_pointer rctx <$> [0; 4; 2; 6; 1; 3; 5; 7])) rctx).
Proof.
  intros rctx.
  apply (interlace_row_order_8 (fun _ => true) rctx); reflexivity.
Defined.

(** C2 as the specification words it: the order it lists, with rows 5 and
    3 exchanged, is not the order the passes give. *)
Lemma interlace_row_order_8_not_as_listed :
  iwgif_row_order 1 8 <> [0; 4; 2; 6; 1; 5; 3; 7]
  /\ concat ((fun p => interlace_pass 8 (fst p) (snd p) 8) <$> [(0, 8); (4, 8); (2, 4); (1, 2)])
     <> [0; 4; 2; 6; 1; 5; 3; 7].
Proof. split; vm_compute; discriminate. Qed.
(** ** The row table holds every row once *)

Lemma interlace_pass_lower (fuel : nat) (row rowskip h x : Z) :
  0 < rowskip -> In x (interlace_pass fuel row rowskip h) -> row <= x.
Proof.
  intros Hs. revert row. induction fuel as [|fuel IH]; intros row; simpl; [tauto|].
  destruct (row <? h); simpl; [|tauto].
  intros [<-|Hin]; [lia|]. apply IH in Hin. lia.
Qed.

Lemma interlace_pass_NoDup (fuel : nat) (row rowskip h : Z) :
  0 < rowskip -> NoDup (interlace_pass fuel row rowskip h).
Proof.
  intros Hs. revert row. induction fuel as [|fuel IH]; intros row; simpl;
    [constructor|].
  destruct (row <? h); [|constructor].
  constructor; [|apply IH].
  intros Hin%list_elem_of_In. apply interlace_pass_lower in Hin; lia.
Qed.

(** With fuel enough for the rows left, a pass visits the rows from
    [row] on that are below [h] and a multiple of [rowskip] away. *)
Lemma interlace_pass_In (fuel : nat) (row rowskip h x : Z) :
  0 < rowskip -> (Z.to_nat (h - row) <= fuel)%nat ->
  In x (interlace_pass fuel row rowskip h)
  <-> row <= x < h /\ (rowskip | x - row).
Proof.
  intros Hs. revert row. induction fuel as [|fuel IH]; intros row Hf; simpl.
  - split; [tauto | lia].
  - destruct (Z.ltb_spec row h) as [Hlt|Hge]; simpl.
    + rewrite IH by lia. split.
      * intros [<-|[Hx [q Hq]]].
        -- split; [lia|]. exists 0. lia.
        -- split; [lia|]. exists (q + 1). lia.
      * intros [Hx [q Hq]].
        destruct (Z.eq_dec x row) as [->|Hne]; [left; reflexivity|].
        assert (Hq1 : 0 < q) by nia.
        assert (Hq2 : rowskip <= q * rowskip) by nia.
        right. split; [lia|]. exists (q - 1). lia.
    + split; [tauto | lia].
Qed.

(** The row table lists the rows 0 .. [image_height]-1, each once, for
    an interlaced image and for one that is not: the list model of the
    table has the [image_height] slots the source allocates, and the loops
    fill each of them. *)
Lemma iwgif_row_order_Permutation (interlaced h : Z) :
  Permutation (iwgif_row_order interlaced h) (seqZ 0 h).
Proof.
  apply NoDup_Permutation.
  - unfold iwgif_row_order. destruct (truthy interlaced).
    + repeat (apply NoDup_app; split; [apply interlace_pass_NoDup; lia|]; split;
              [|try (apply interlace_pass_NoDup; lia)]).
      all: intros x Hx%list_elem_of_In.
      all: rewrite ?elem_of_app, !list_elem_of_In.
      all: rewrite interlace_pass_In in Hx by lia.
      all: rewrite ?interlace_pass_In by lia.
      all: destruct Hx as [Hx [q Hq]].
      all: intros H; repeat destruct H as [H|H]; destruct H as [_ [q' Hq']]; lia.
    + apply interlace_pass_NoDup. lia.
  - apply NoDup_seqZ.
  - intros x. rewrite elem_of_seqZ, list_elem_of_In.
    unfold iwgif_row_order. destruct (truthy interlaced).
    + rewrite !in_app_iff, !interlace_pass_In by lia. split.
      * intros [H|[H|[H|H]]]; lia.
      * intros Hx.
        assert (Hm : x mod 8 = 0 \/ x mod 8 = 4 \/ x mod 4 = 2 \/ x mod 2 = 1).
        { pose proof (Z.mod_pos_bound x 8). pose proof (Z.mod_pos_bound x 4).
          pose proof (Z.mod_pos_bound x 2).
          pose proof (Z.div_mod x 8). pose proof (Z.div_mod x 4).
          pose proof (Z.div_mod x 2). lia. }
        destruct Hm as [Hm|[Hm|[Hm|Hm]]].
        -- left. split; [lia|]. exists (x / 8). pose proof (Z.div_mod x 8). lia.
        -- right. left. split.
           ++ pose proof (Z.div_mod x 8). pose proof (Z.div_pos x 8). lia.
           ++ exists (x / 8). pose proof (Z.div_mod x 8). lia.
        -- right. right. left. split.
           ++ pose proof (Z.div_mod x 4). pose proof (Z.div_pos x 4). lia.
           ++ exists (x / 4). pose proof (Z.div_mod x 4). lia.
        -- right. right. right. split.
           ++ pose proof (Z.div_mod x 2). pose proof (Z.div_pos x 2). lia.
           ++ exists (x / 2). pose proof (Z.div_mod x 2). lia.
    + rewrite interlace_pass_In by lia. split; [lia|].
      intros Hx. split; [lia|]. exists x. lia.
Qed.

Lemma iwgif_row_order_length (interlaced h : Z) :
  length (iwgif_row_order interlaced h) = Z.to_nat h.
Proof.
  rewrite (Permutation_length (iwgif_row_order_Permutation interlaced h)).
  apply length_seqZ.
Qed.

(** * The loops of the model and the loops of the source *)

(** ** The loops over the source have fuel enough *)

Lemma iwgif_read_source (r r' : iwgifreadcontext) (n ok : Z) :
  iwgif_read r n = (ok, r') ->
  (length (iodescr r') <= length (iodescr r))%nat
  /\ (truthy ok = true -> n <> 0 -> (length (iodescr r') < length (iodescr r))%nat).
Proof.
  unfold iwgif_read. intros H.
  assert (Hio : iodescr r' = drop (Z.to_nat n) (iodescr r)).
  { destruct (_ =? _); injection H as _ <-; reflexivity. }
  rewrite Hio, length_drop. split; [lia|].
  intros Hok Hn. destruct (Z.eqb_spec (Z.of_nat (length (take (Z.to_nat n) (iodescr r)))) n)
    as [Hlen|]; injection H as <- _; [|discriminate].
  rewrite length_take in Hlen. lia.
Qed.

Lemma lzw_frame_source (r r' : iwgifreadcontext) :
  lzw_frame r r' -> iodescr r' = iodescr r.
Proof. intros (c & px & ps & ->). reflexivity. Qed.

(** The subblock loop of the image data gives the same outcome for every
    fuel above the number of bytes the source holds: [Diverges] never
    comes from the fuel [iwgif_read_image] hands it. *)
Lemma iwgif_read_image_loop_fuel (fuel : nat) :
  forall (r : iwgifreadcontext) (d : lzwdeccontext),
    (length (iodescr r) < fuel)%nat ->
    iwgif_read_image_loop fuel r d = iwgif_read_image_loop (S fuel) r d.
Proof.
  induction fuel as [|fuel IH]; intros r d Hlen; [lia|].
  assert (Hgen : forall f1, f1 = S fuel ->
    iwgif_read_image_loop (S fuel) r d = iwgif_read_image_loop (S f1) r d);
    [|apply Hgen; reflexivity].
  intros f1 Hf1. cbn [iwgif_read_image_loop].
  destruct (iwgif_read r 1) as [ok1 r1] eqn:H1.
  destruct (truthy ok1) eqn:Hok1; [|reflexivity]. cbn [negb].
  apply iwgif_read_source in H1 as [_ H1]. specialize (H1 Hok1 ltac:(lia)).
  destruct (rbuf_at r1 0) as [n| |]; cbn [mbind outcome_bind]; try reflexivity.
  destruct (n =? 0); [reflexivity|].
  destruct (iwgif_read r1 n) as [ok2 r2] eqn:H2.
  apply iwgif_read_source in H2 as [H2 _].
  destruct (negb (truthy ok2)); [reflexivity|].
  destruct (lzw_process_bytes r2 d _) as [[[ok3 r3] d3]| |] eqn:H3;
    cbn [mbind outcome_bind]; try reflexivity.
  apply lzw_process_bytes_frame, lzw_frame_source in H3.
  destruct (negb (truthy ok3)); [reflexivity|].
  destruct (truthy (eoi_flag d3)); [reflexivity|].
  destruct (_ <=? _); [reflexivity|].
  subst f1. apply IH. rewrite H3. lia.
Qed.

Lemma iwgif_skip_subblocks_loop_fuel (fuel : nat) :
  forall r : iwgifreadcontext,
    (length (iodescr r) < fuel)%nat ->
    iwgif_skip_subblocks_loop fuel r = iwgif_skip_subblocks_loop (S fuel) r.
Proof.
  induction fuel as [|fuel IH]; intros r Hlen; [lia|].
  assert (Hgen : forall f1, f1 = S fuel ->
    iwgif_skip_subblocks_loop (S fuel) r = iwgif_skip_subblocks_loop (S f1) r);
    [|apply Hgen; reflexivity].
  intros f1 Hf1. cbn [iwgif_skip_subblocks_loop].
  destruct (iwgif_read r 1) as [ok1 r1] eqn:H1.
  destruct (truthy ok1) eqn:Hok1; [|reflexivity]. cbn [negb].
  apply iwgif_read_source in H1 as [_ H1]. specialize (H1 Hok1 ltac:(lia)).
  destruct (rbuf_at r1 0) as [n| |]; cbn [mbind outcome_bind]; try reflexivity.
  destruct (n =? 0); [reflexivity|].
  destruct (iwgif_read r1 n) as [ok2 r2] eqn:H2.
  apply iwgif_read_source in H2 as [H2 _].
  destruct (negb (truthy ok2)); [reflexivity|].
  subst f1. apply IH. lia.
Qed.

Lemma iwgif_skip_subblocks_loop_source (fuel : nat) :
  forall (r r' : iwgifreadcontext) (ok : Z),
    iwgif_skip_subblocks_loop fuel r = Normal (ok, r') ->
    (length (iodescr r') <= length (iodescr r))%nat.
Proof.
  induction fuel as [|fuel IH]; intros r r' ok; cbn [iwgif_skip_subblocks_loop];
    [discriminate|].
  destruct (iwgif_read r 1) as [ok1 r1] eqn:H1.
  apply iwgif_read_source in H1 as [H1 _].
  destruct (negb (truthy ok1)); [intros [= _ <-]; exact H1|].
  destruct (rbuf_at r1 0) as [n| |]; cbn [mbind outcome_bind]; try discriminate.
  destruct (n =? 0); [intros [= _ <-]; exact H1|].
  destruct (iwgif_read r1 n) as [ok2 r2] eqn:H2.
  apply iwgif_read_source in H2 as [H2 _].
  destruct (negb (truthy ok2)); [intros [= _ <-]; lia|].
  intros H. apply IH in H. lia.
Qed.

Lemma iwgif_read_graphics_control_ext_source (retval : Z) (r r' : iwgifreadcontext)
    (ok : Z) :
  iwgif_read_graphics_control_ext retval r = Normal (ok, r') ->
  (length (iodescr r') <= length (iodescr r))%nat.
Proof.
  unfold iwgif_read_graphics_control_ext.
  destruct (iwgif_read r 6) as [ok1 r1] eqn:H1.
  apply iwgif_read_source in H1 as [H1 _].
  destruct (negb (truthy ok1)); [intros [= _ <-]; exact H1|].
  destruct (rbuf_at r1 0) as [b0| |]; cbn [mbind outcome_bind]; try discriminate.
  destruct (negb (b0 =? 4)); [intros [= _ <-]; exact H1|].
  destruct (rbuf_at r1 5) as [b5| |]; cbn [mbind outcome_bind]; try discriminate.
  destruct (negb (b5 =? 0)); [intros [= _ <-]; exact H1|].
  destruct (rbuf_at r1 1) as [b1| |]; cbn [mbind outcome_bind]; try discriminate.
  match goal with
  | |- context [mbind _ ?m] =>
      assert (Hm : forall r2, m = Normal r2 -> iodescr r2 = iodescr r1)
  end.
  { intros r2. destruct (truthy _); [|intros [= <-]; reflexivity].
    destruct (rbuf_at _ 4) as [b4| |]; cbn [mbind outcome_bind]; try discriminate.
    destruct (defined (array_get _ _)) as [e| |]; cbn [mbind outcome_bind];
      try discriminate.
    destruct (defined (array_set _ _ _)) as [ents| |]; cbn [mbind outcome_bind];
      try discriminate.
    intros [= <-]. reflexivity. }
  match goal with
  | |- context [mbind _ ?m] => destruct m as [r2| |]; cbn [mbind outcome_bind];
                                 try discriminate
  end.
  intros [= _ <-]. rewrite (Hm r2 eq_refl). exact H1.
Qed.

Lemma iwgif_read_extension_source (retval : Z) (r r' : iwgifreadcontext) (ok : Z) :
  iwgif_read_extension retval r = Normal (ok, r') ->
  (length (iodescr r') <= length (iodescr r))%nat
  /\ (truthy ok = true -> (length (iodescr r') < length (iodescr r))%nat).
Proof.
  unfold iwgif_read_extension.
  destruct (iwgif_read r 1) as [ok1 r1] eqn:H1.
  apply iwgif_read_source in H1 as [H1 H1'].
  destruct (truthy ok1) eqn:Hok1; cbn [negb].
  2:{ intros [= <- <-]. split; [exact H1 | discriminate]. }
  specialize (H1' eq_refl ltac:(lia)).
  destruct (rbuf_at r1 0) as [t| |]; cbn [mbind outcome_bind]; try discriminate.
  destruct (t =? 249).
  - destruct (iwgif_read_graphics_control_ext retval r1) as [[ok2 r2]| |] eqn:H2;
      cbn [mbind outcome_bind]; try discriminate.
    apply iwgif_read_graphics_control_ext_source in H2.
    destruct (negb (truthy ok2)); intros [= _ <-]; split; lia.
  - unfold iwgif_skip_subblocks.
    destruct (iwgif_skip_subblocks_loop _ r1) as [[ok2 r2]| |] eqn:H2;
      cbn [mbind outcome_bind]; try discriminate.
    apply iwgif_skip_subblocks_loop_source in H2.
    destruct (negb (truthy ok2)); intros [= _ <-]; split; lia.
Qed.

(** The block loop gives the same outcome for every fuel above the
    number of bytes the source holds. *)
Lemma iwgif_read_blocks_fuel
    (iw_malloc_large : Z -> Z -> bool) (iw_malloc : Z -> bool) (fuel : nat) :
  forall (retvals : nat -> Z) (r : iwgifreadcontext),
    (length (iodescr r) < fuel)%nat ->
    iwgif_read_blocks iw_malloc_large iw_malloc fuel retvals r =
    iwgif_read_blocks iw_malloc_large iw_malloc (S fuel) retvals r.
Proof.
  induction fuel as [|fuel IH]; intros retvals r Hlen; [lia|].
  assert (Hgen : forall f1, f1 = S fuel ->
    iwgif_read_blocks iw_malloc_large iw_malloc (S fuel) retvals r =
    iwgif_read_blocks iw_malloc_large iw_malloc (S f1) retvals r);
    [|apply Hgen; reflexivity].
  intros f1 Hf1. cbn [iwgif_read_blocks].
  destruct (iwgif_read r 1) as [ok1 r1] eqn:H1.
  destruct (truthy ok1) eqn:Hok1; [|reflexivity]. cbn [negb].
  apply iwgif_read_source in H1 as [_ H1]. specialize (H1 Hok1 ltac:(lia)).
  destruct (rbuf_at r1 0) as [blk| |]; cbn [mbind outcome_bind]; try reflexivity.
  destruct (blk =? 33); [|reflexivity].
  destruct (iwgif_read_extension (retvals O) r1) as [[ok2 r2]| |] eqn:H2;
    cbn [mbind outcome_bind]; try reflexivity.
  apply iwgif_read_extension_source in H2 as [H2 _].
  destruct (negb (truthy ok2)); [reflexivity|].
  subst f1. apply IH. lia.
Qed.

(** ** The emission loop has fuel enough *)

Lemma poke_shape (r1 r2 : iwgifreadcontext) (addr v : Z) :
  canvas_shape r1 = canvas_shape r2 ->
  (poke r1 addr v = Undefined /\ poke r2 addr v = Undefined)
  \/ exists r1' r2',
       poke r1 addr v = Normal r1' /\ poke r2 addr v = Normal r2'
       /\ canvas_shape r1' = canvas_shape r1 /\ canvas_shape r2' = canvas_shape r2.
Proof.
  intros Hsh. pose proof (f_equal snd Hsh) as Hlen. unfold canvas_shape in Hlen.
  cbn [snd] in Hlen. unfold poke, canvas_shape.
  destruct (pixels (img r1)) as [p1|], (pixels (img r2)) as [p2|];
    try discriminate; simpl in *; [|left; split; reflexivity].
  injection Hlen as Hlen. unfold array_set. rewrite Hlen.
  destruct (_ && _); simpl; [|left; split; reflexivity].
  right. eexists _, _. split; [reflexivity|]. split; [reflexivity|].
  simpl. rewrite !length_insert, ?Hlen. split; reflexivity.
Qed.

Lemma iwgif_record_pixel_shape (r1 r2 : iwgifreadcontext) (coloridx offset : Z) :
  canvas_shape r1 = canvas_shape r2 ->
  (iwgif_record_pixel r1 coloridx offset = Undefined
   /\ iwgif_record_pixel r2 coloridx offset = Undefined)
  \/ exists r1' r2',
       iwgif_record_pixel r1 coloridx offset = Normal r1'
       /\ iwgif_record_pixel r2 coloridx offset = Normal r2'
       /\ canvas_shape r1' = canvas_shape r1 /\ canvas_shape r2' = canvas_shape r2.
Proof.
  intros Hsh. pose proof (f_equal fst Hsh) as Hst. unfold canvas_shape in Hst.
  cbn [fst] in Hst.
  assert (E1 : image_width r1 = image_width r2) by exact (f_equal image_width Hst).
  assert (E2 : pixels_set r1 = pixels_set r2) by exact (f_equal pixels_set Hst).
  assert (E3 : image_left r1 = image_left r2) by exact (f_equal image_left Hst).
  assert (E4 : image_top r1 = image_top r2) by exact (f_equal image_top Hst).
  assert (E5 : screen_width r1 = screen_width r2) by exact (f_equal screen_width Hst).
  assert (E6 : screen_height r1 = screen_height r2) by exact (f_equal screen_height Hst).
  assert (E7 : colortable r1 = colortable r2) by exact (f_equal colortable Hst).
  assert (E8 : row_pointers r1 = row_pointers r2) by exact (f_equal row_pointers Hst).
  assert (E9 : bytes_per_pixel r1 = bytes_per_pixel r2)
    by exact (f_equal bytes_per_pixel Hst).
  assert (E10 : imgtype (img r1) = imgtype (img r2))
    by exact (f_equal (fun r => imgtype (img r)) Hst).
  assert (Hsame : forall r : iwgifreadcontext,
    exists r1' r2', Normal r = Normal r1' /\ Normal r = Normal r2'
                    /\ canvas_shape r1' = canvas_shape r /\ canvas_shape r2' = canvas_shape r).
  { intros r. exists r, r. repeat split. }
  unfold iwgif_record_pixel. rewrite E1, E2, E3, E4, E5, E6, E7, E8, E9.
  destruct (usz (image_width r2) =? 0); [left; split; reflexivity|].
  destruct (_ || _).
  { right. exists r1, r2. repeat split. }
  destruct (coloridx <? _); [|right; exists r1, r2; repeat split].
  destruct (array_get (entry (colortable r2)) coloridx) as [e|];
    simpl; [|left; split; reflexivity].
  destruct (row_pointers r2) as [rows|]; simpl; [|left; split; reflexivity].
  destruct (array_get rows _) as [row|]; simpl; [|left; split; reflexivity].
  destruct (poke_shape r1 r2 (row + usz (usz (bytes_per_pixel r2)
              * (usz (pixels_set r2 + usz offset) mod usz (image_width r2))) + 0) (cr e) Hsh)
    as [[-> ->] | (a1 & a2 & -> & -> & Ha1 & Ha2)]; simpl; [left; split; reflexivity|].
  assert (Ha : canvas_shape a1 = canvas_shape a2) by congruence.
  destruct (poke_shape a1 a2 (row + usz (usz (bytes_per_pixel r2)
              * (usz (pixels_set r2 + usz offset) mod usz (image_width r2))) + 1) (cg e) Ha)
    as [[-> ->] | (b1 & b2 & -> & -> & Hb1 & Hb2)]; simpl; [left; split; reflexivity|].
  assert (Hb : canvas_shape b1 = canvas_shape b2) by congruence.
  destruct (poke_shape b1 b2 (row + usz (usz (bytes_per_pixel r2)
              * (usz (pixels_set r2 + usz offset) mod usz (image_width r2))) + 2) (cb e) Hb)
    as [[-> ->] | (c1 & c2 & -> & -> & Hc1 & Hc2)]; simpl; [left; split; reflexivity|].
  assert (Hc : canvas_shape c1 = canvas_shape c2) by congruence.
  assert (T1 : imgtype (img c1) = imgtype (img r1)).
  { pose proof (f_equal fst Hc1) as H1. pose proof (f_equal fst Ha1) as H2.
    pose proof (f_equal fst Hb1) as H3. simpl in H1, H2, H3.
    apply (f_equal (fun r => imgtype (img r))) in H1, H2, H3. simpl in *. congruence. }
  assert (T2 : imgtype (img c2) = imgtype (img r2)).
  { pose proof (f_equal fst Hc2) as H1. pose proof (f_equal fst Ha2) as H2.
    pose proof (f_equal fst Hb2) as H3. simpl in H1, H2, H3.
    apply (f_equal (fun r => imgtype (img r))) in H1, H2, H3. simpl in *. congruence. }
  rewrite T1, T2, E10.
  destruct (imgtype (img r2)).
  - right. exists c1, c2. repeat split; congruence.
  - right. exists c1, c2. repeat split; congruence.
  - destruct (poke_shape c1 c2 (row + usz (usz (bytes_per_pixel r2)
              * (usz (pixels_set r2 + usz offset) mod usz (image_width r2))) + 3) (ca e) Hc)
      as [[-> ->] | (e1 & e2 & -> & -> & He1 & He2)]; [left; split; reflexivity|].
    right. exists e1, e2. repeat split; congruence.
Qed.

Lemma emit_code_at_succ (d : lzwdeccontext) (code : Z) (k : nat) :
  emit_code_at d code (S k) = emit_code_at d (emit_parent d code) k.
Proof. unfold emit_code_at. apply Nat.iter_succ_r. Qed.

(** The loop runs out of [fuel] rounds exactly when each of its first
    [fuel] rounds goes on. *)
Lemma lzw_emit_code_loop_Diverges (fuel : nat) :
  forall (r0 r : iwgifreadcontext) (d : lzwdeccontext) (code : Z),
    canvas_shape r = canvas_shape r0 ->
    lzw_emit_code_loop fuel r d code = Diverges
    <-> forall k, (k < fuel)%nat -> emit_goes_on r0 d (emit_code_at d code k) = true.
Proof.
  induction fuel as [|fuel IH]; intros r0 r d code Hsh.
  - split; [intros _ k Hk; lia | reflexivity].
  - cbn [lzw_emit_code_loop]. unfold ct_at.
    assert (H0 : emit_code_at d code 0 = code) by reflexivity.
    destruct (array_get (ct d) code) as [e|] eqn:He; simpl.
    + destruct (iwgif_record_pixel_shape r r0 (value e) (int_of_unsigned (length_ e)) Hsh)
        as [[Hu Hu0] | (r' & r0' & Hr & Hr0 & Hs & Hs0)].
      * rewrite Hu. simpl. split; [discriminate|].
        intros H. specialize (H O ltac:(lia)). rewrite H0 in H.
        unfold emit_goes_on in H. rewrite He, Hu0 in H. discriminate.
      * rewrite Hr. simpl. destruct (Z.ltb_spec (length_ e) 1) as [Hl|Hl].
        -- split; [discriminate|].
           intros H. specialize (H O ltac:(lia)). rewrite H0 in H.
           unfold emit_goes_on in H. rewrite He, Hr0 in H. simpl in H.
           apply Z.leb_le in H. lia.
        -- assert (Hp : emit_parent d code = reference e)
             by (unfold emit_parent; rewrite He; reflexivity).
           rewrite (IH r0 r' d (reference e)) by congruence. split.
           ++ intros H [|k] Hk.
              ** rewrite H0. unfold emit_goes_on. rewrite He, Hr0. simpl.
                 apply Z.leb_le. lia.
              ** rewrite emit_code_at_succ, Hp. apply H. lia.
           ++ intros H k Hk. specialize (H (S k) ltac:(lia)).
              rewrite emit_code_at_succ, Hp in H. exact H.
    + split; [discriminate|].
      intros H. specialize (H O ltac:(lia)). rewrite H0 in H.
      unfold emit_goes_on in H. rewrite He in H. discriminate.
Qed.

(** A loop that goes on for 4097 rounds over a table of 4096 entries has
    been at one entry twice, and goes on for ever. *)
Lemma emit_goes_on_for_ever (r0 : iwgifreadcontext) (d : lzwdeccontext) (code : Z) :
  (length (ct d) <= 4096)%nat ->
  (forall k, (k < 4097)%nat -> emit_goes_on r0 d (emit_code_at d code k) = true) ->
  forall k, emit_goes_on r0 d (emit_code_at d code k) = true.
Proof.
  intros Hlen Hfirst.
  assert (Hrange : forall c, emit_goes_on r0 d c = true -> 0 <= c < 4096).
  { intros c Hc. unfold emit_goes_on in Hc.
    destruct (array_get (ct d) c) as [e|] eqn:He; [|discriminate].
    apply array_get_Some_range in He. lia. }
  destruct (nat_pigeonhole (fun k => Z.to_nat (emit_code_at d code k)) 4097 4096)
    as (i1 & i2 & Hi & Heq).
  { lia. }
  { intros i Hi. specialize (Hrange _ (Hfirst i Hi)). lia. }
  assert (Heq' : emit_code_at d code i1 = emit_code_at d code i2).
  { pose proof (Hrange _ (Hfirst i1 ltac:(lia))).
    pose proof (Hrange _ (Hfirst i2 ltac:(lia))). lia. }
  assert (Hper : forall j, emit_code_at d code (i2 + j) = emit_code_at d code (i1 + j)).
  { induction j as [|j IHj]; [rewrite !Nat.add_0_r; congruence|].
    rewrite !Nat.add_succ_r. unfold emit_code_at in *. simpl. congruence. }
  intros k. induction k as [k IHk] using lt_wf_ind.
  destruct (Nat.lt_ge_cases k 4097) as [Hk|Hk]; [exact (Hfirst k Hk)|].
  replace k with (i2 + (k - i2))%nat by lia. rewrite Hper. apply IHk. lia.
Qed.

Lemma lzw_emit_code_loop_more_fuel (fuel : nat) :
  forall (r : iwgifreadcontext) (d : lzwdeccontext) (code : Z) (k : nat),
    lzw_emit_code_loop fuel r d code <> Diverges ->
    lzw_emit_code_loop (fuel + k) r d code = lzw_emit_code_loop fuel r d code.
Proof.
  induction fuel as [|fuel IH]; intros r d code k; [intros H; contradiction H; reflexivity|].
  change (S fuel + k)%nat with (S (fuel + k)). cbn [lzw_emit_code_loop].
  destruct (ct_at d code) as [e| |]; simpl; try reflexivity.
  destruct (iwgif_record_pixel r _ _) as [r'| |]; simpl; try reflexivity.
  destruct (length_ e <? 1); [reflexivity|]. apply IH.
Qed.

(** The emission gives the same outcome for every fuel from 4097 on:
    [Diverges] stands for a loop that does not end. *)
Lemma lzw_emit_code_loop_fuel (fuel : nat) (r : iwgifreadcontext)
    (d : lzwdeccontext) (code : Z) :
  (length (ct d) <= 4096)%nat -> (4097 <= fuel)%nat ->
  lzw_emit_code_loop fuel r d code = lzw_emit_code_loop 4097 r d code.
Proof.
  intros Hlen Hfuel.
  destruct (lzw_emit_code_loop 4097 r d code) as [x| |] eqn:E.
  - replace fuel with (4097 + (fuel - 4097))%nat by lia.
    rewrite lzw_emit_code_loop_more_fuel; [exact E | rewrite E; discriminate].
  - replace fuel with (4097 + (fuel - 4097))%nat by lia.
    rewrite lzw_emit_code_loop_more_fuel; [exact E | rewrite E; discriminate].
  - apply (lzw_emit_code_loop_Diverges fuel r r d code eq_refl).
    intros k _. apply emit_goes_on_for_ever; [exact Hlen|].
    apply (lzw_emit_code_loop_Diverges 4097 r r d code eq_refl). exact E.
Qed.
